(** * RISConvert: APA 7th references to RIS records

    A shallow embedding of the conversion core of [streamlit_app.py]
    ([detect_reference_type], [parse_apa_reference], [record_to_ris],
    [references_text_to_ris]) together with the parts of the Python runtime
    it calls ([str.strip], [str.lower], [str.splitlines], slicing, [re.search]),
    and the properties of the specification proved against it.

    Python strings are sequences of Unicode code points; they are modelled as
    lists of code points.  Python integers are [Z].  A dictionary is a finite
    map from keys to values, a value being a string or [None].  Operations
    that can raise return a [result]. *)

From Stdlib Require Import ZArith NArith Ascii String.
From stdpp Require Import base option numbers list strings gmap fin_maps.

#[local] Open Scope N_scope.

(** ** Strings as lists of code points *)

Abbreviation codepoint := N (only parsing).
Abbreviation str := (list N) (only parsing).

(** [lit s] is the Python string literal whose characters are the ASCII
    characters of [s]. *)
Definition lit (s : string) : str :=
  map N_of_ascii (list_ascii_of_string s).
Arguments lit : simpl never.

Definition NL : codepoint := 10.
Definition CR : codepoint := 13.
Definition LF : codepoint := 10.

(** ** The Unicode character database

    The classification of the code points below 128 is fixed (CPython's ASCII
    tables); that of the others comes from the Unicode database the
    interpreter was built with, which is a parameter here.  [uni_lower] is
    [str.lower] on a string with a non-ASCII character (it is not
    character-wise there: the final sigma rule looks at the context). *)

Record unicode_db : Type := UnicodeDB {
  uni_isspace : codepoint -> bool;
  uni_islinebreak : codepoint -> bool;
  uni_isalpha : codepoint -> bool;
  uni_isdecimal : codepoint -> bool;
  uni_isdigit : codepoint -> bool;
  uni_isnumeric : codepoint -> bool;
  uni_lower : str -> str
}.

Definition is_ascii (c : codepoint) : bool := c <? 128.

Definition between (lo hi c : codepoint) : bool := (lo <=? c) && (c <=? hi).

(** [_Py_ascii_whitespace]: TAB, LF, VT, FF, CR, FS, GS, RS, US and SPACE. *)
Definition ascii_isspace (c : codepoint) : bool :=
  between 9 13 c || between 28 31 c || (c =? 32).

(** [_Py_ascii_linebreak]: LF, VT, FF, CR, FS, GS and RS. *)
Definition ascii_islinebreak (c : codepoint) : bool :=
  between 10 13 c || between 28 30 c.

Definition ascii_isdecimal (c : codepoint) : bool := between 48 57 c.

Definition ascii_isalpha (c : codepoint) : bool :=
  between 65 90 c || between 97 122 c.

Definition ascii_lower (c : codepoint) : codepoint :=
  if between 65 90 c then c + 32 else c.

(** A database that knows nothing beyond ASCII; it is used to run the
    functions on ASCII inputs, where the database is never consulted. *)
Definition ascii_db : unicode_db :=
  {| uni_isspace := fun _ => false;
     uni_islinebreak := fun _ => false;
     uni_isalpha := fun _ => false;
     uni_isdecimal := fun _ => false;
     uni_isdigit := fun _ => false;
     uni_isnumeric := fun _ => false;
     uni_lower := map ascii_lower |}.

#[local] Close Scope N_scope.

(** ** Exceptions *)

Inductive exn : Type := KeyError | IndexError.

Inductive result (A : Type) : Type :=
| Ok (a : A)
| Raise (e : exn).
Arguments Ok {A} a.
Arguments Raise {A} e.

#[export] Instance result_ret : MRet result := fun A a => Ok a.
#[export] Instance result_bind : MBind result := fun A B f m =>
  match m with
  | Ok a => f a
  | Raise e => Raise e
  end.

(** ** Python values stored in the record dictionary: a string or [None] *)

Abbreviation value := (option (list N)) (only parsing).
Abbreviation dict := (gmap string (option (list N))) (only parsing).

(** Truth value of a string ([if s:]) and of a string-or-None. *)
Definition truthy_str (s : str) : bool :=
  match s with
  | [] => false
  | _ :: _ => true
  end.

Definition truthy (v : value) : bool :=
  match v with
  | Some s => truthy_str s
  | None => false
  end.

(** [d.get(k)]: the value, or [None] when the key is missing. *)
Definition dict_get (d : dict) (k : string) : value :=
  default None (d !! k).

(** [d[k]]: raises [KeyError] when the key is missing. *)
Definition dict_item (d : dict) (k : string) : result value :=
  match d !! k with
  | Some v => Ok v
  | None => Raise KeyError
  end.

(** [v or s] for a string-or-None [v] and a string [s]. *)
Definition py_or (v : value) (s : str) : str :=
  match v with
  | Some (c :: v') => c :: v'
  | _ => s
  end.

(** How an f-string renders a value. *)
Definition fmt (v : value) : str :=
  match v with
  | Some s => s
  | None => lit "None"
  end.

(** ** String operations that do not depend on the character database *)

(** [s.startswith(p)] *)
Fixpoint startswith (p s : str) : bool :=
  match p, s with
  | [], _ => true
  | _ :: _, [] => false
  | a :: p', b :: s' => (a =? b)%N && startswith p' s'
  end.

(** [s.endswith(p)] *)
Definition endswith (p s : str) : bool :=
  startswith (reverse p) (reverse s).

(** [needle in hay] *)
Fixpoint str_in (needle hay : str) : bool :=
  startswith needle hay ||
  match hay with
  | [] => false
  | _ :: hay' => str_in needle hay'
  end.

(** [s.find(sub)]: the lowest index where [sub] occurs, or -1. *)
Fixpoint find_from (sub s : str) (i : Z) : Z :=
  if startswith sub s then i
  else match s with
       | [] => (-1)%Z
       | _ :: s' => find_from sub s' (i + 1)%Z
       end.

Definition find (s sub : str) : Z := find_from sub s 0%Z.

(** Slice bounds: a negative index counts from the end, and the result is
    clipped to the string. *)
Definition slice_index (s : str) (i : Z) : nat :=
  let n := Z.of_nat (length s) in
  let j := if (i <? 0)%Z then (i + n)%Z else i in
  Z.to_nat (Z.min n (Z.max 0 j)).

(** [s[:i]] and [s[i:]] *)
Definition slice_to (s : str) (i : Z) : str := take (slice_index s i) s.
Definition slice_from (s : str) (i : Z) : str := drop (slice_index s i) s.

(** [sep.join(parts)] *)
Fixpoint join (sep : str) (parts : list str) : str :=
  match parts with
  | [] => []
  | [p] => p
  | p :: ps => p ++ sep ++ join sep ps
  end.

(** ** Regular expressions

    The fragment of Python's [re] syntax the program's three patterns use.
    [Group n r] is the capturing group number [n]. *)

Inductive regex : Type :=
| Eps
| Chr (c : codepoint)
| Digit
| Space
| NonSpace
| WordBoundary
| Seq (r1 r2 : regex)
| Opt (r : regex)
| Star (r : regex)
| Group (n : nat) (r : regex).

Infix "+>" := Seq (at level 60, right associativity).

(** [r+] and [r{n}] *)
Definition Plus (r : regex) : regex := r +> Star r.

Fixpoint Repeat (n : nat) (r : regex) : regex :=
  match n with
  | 0 => Eps
  | S n' => r +> Repeat n' r
  end.

(** A literal word. *)
Fixpoint Word (s : str) : regex :=
  match s with
  | [] => Eps
  | c :: s' => Chr c +> Word s'
  end.

(** Does the pattern have a group numbered [n]? *)
Fixpoint has_group (n : nat) (r : regex) : bool :=
  match r with
  | Seq r1 r2 => has_group n r1 || has_group n r2
  | Opt r' | Star r' => has_group n r'
  | Group m r' => Nat.eqb m n || has_group n r'
  | _ => false
  end.

(** The position of the matcher in the subject: the character before it
    (if any), its index, and the text from it on. *)
Record cursor : Type := Cursor {
  prev : option N;
  pos : nat;
  rest : list N
}.

(** Spans of the groups closed so far. *)
Abbreviation captures := (gmap nat (nat * nat)) (only parsing).

(** A match object: the pattern, the subject, the span of the whole match
    and the spans of its groups. *)
Record match_obj : Type := Match {
  m_re : regex;
  m_string : list N;
  m_start : nat;
  m_end : nat;
  m_groups : gmap nat (nat * nat)
}.

(** [m.start()] and [m.end()] *)
Definition start (m : match_obj) : Z := Z.of_nat (m_start m).
Definition end_ (m : match_obj) : Z := Z.of_nat (m_end m).

(** [m.group(n)]: [IndexError] when the pattern has no such group, [None]
    when the group took no part in the match. *)
Definition group (m : match_obj) (n : nat) : result value :=
  if has_group n (m_re m) then
    Ok (match m_groups m !! n with
        | Some (i, j) => Some (take (j - i) (drop i (m_string m)))
        | None => None
        end)
  else Raise IndexError.

(** ** Reference lines used as examples

    The four example lines of the specification (the first with a hyphen for
    its en dash) and the lines on which the claims are tried. *)

Definition example1 : str :=
  lit "Smith, J. (2020). A study of things. Journal of Things, 5(2), 10-20. https://doi.org/10.1/x".
Definition example2 : str :=
  lit "World Health Organization. (2021). Global report on X [technical report].".
Definition example3 : str :=
  lit "Random Blog. (2022). Some opinion piece. Retrieved from https://example.com/post".
Definition example4 : str :=
  lit "No year reference without parentheses.".

(** Whitespace before the period that ends the authors. *)
Definition spaced_period : str := lit "Smith . (2020) T".

(** A line without a year, with whitespace around it, an institution
    keyword, a report marker and a DOI URL. *)
Definition no_year_line : str :=
  lit "  University [press release], 2020. https://doi.org/10.1/x  ".

(** An institutional report with a DOI. *)
Definition institutional_doi : str :=
  lit "World Health Organization. (2021). Global report [technical report]. DOI:10.1/x".

(** A text with a newline in it, handed to the extractor as one line. *)
Definition newline_in_line : str :=
  lit "foo" ++ [NL] ++ lit "AU  - Fake, A.,".

(** A volume glued to a letter, and one that stands alone. *)
Definition glued_volume : str := lit "Nature, v12(3), 45".
Definition plain_volume : str := lit "Journal of Things, 5(2),10".

Section Program.

Context (db : unicode_db).

(** ** Character classes of the running interpreter *)

(** [Py_UNICODE_ISSPACE]: what [str.strip] removes and what [\s] matches. *)
Definition isspace (c : codepoint) : bool :=
  if is_ascii c then ascii_isspace c else uni_isspace db c.

(** [Py_UNICODE_ISLINEBREAK]: where [str.splitlines] cuts. *)
Definition islinebreak (c : codepoint) : bool :=
  if is_ascii c then ascii_islinebreak c else uni_islinebreak db c.

(** [Py_UNICODE_ISDECIMAL]: what [\d] matches. *)
Definition isdecimal (c : codepoint) : bool :=
  if is_ascii c then ascii_isdecimal c else uni_isdecimal db c.

Definition isalpha (c : codepoint) : bool :=
  if is_ascii c then ascii_isalpha c else uni_isalpha db c.

(** [Py_UNICODE_ISALNUM] *)
Definition isalnum (c : codepoint) : bool :=
  isalpha c || isdecimal c ||
  (if is_ascii c then false else uni_isdigit db c || uni_isnumeric db c).

(** A word character of [re]: alphanumeric or the underscore. *)
Definition isword (c : codepoint) : bool := isalnum c || (c =? 95)%N.

(** ** Strings: the operations that consult the database *)

(** [s.lower()]: CPython lowers an all-ASCII string character by character. *)
Definition lower (s : str) : str :=
  if forallb is_ascii s then map ascii_lower s else uni_lower db s.

(** [s.lstrip()], [s.rstrip()] and [s.strip()] *)
Fixpoint lstrip (s : str) : str :=
  match s with
  | [] => []
  | c :: s' => if isspace c then lstrip s' else s
  end.

Definition rstrip (s : str) : str := reverse (lstrip (reverse s)).

Definition strip (s : str) : str := rstrip (lstrip s).

(** [s.splitlines()]: the lines of [s] without their line ends; CR LF is one
    line end, and there is no empty last line. *)
Fixpoint splitlines (s : str) : list str :=
  match s with
  | [] => []
  | c :: s' =>
      if islinebreak c then
        [] :: match s' with
              | c' :: s'' =>
                  if (c =? CR)%N && (c' =? LF)%N then splitlines s''
                  else splitlines s'
              | [] => []
              end
      else
        match splitlines s' with
        | [] => [[c]]
        | l :: ls => (c :: l) :: ls
        end
  end.

(** ** The backtracking matcher

    [rmatch r c g k] matches [r] at cursor [c] with the groups [g] closed so
    far and hands the cursor and groups after the match to the continuation
    [k]; when [k] fails the matcher tries its next alternative, in the order
    of [re]: [r?] and [r*] are greedy.  An iteration of [r*] must consume a
    character. *)

Definition at_boundary (c : cursor) : bool :=
  xorb (from_option isword false (prev c)) (from_option isword false (head (rest c))).

Definition step (p : codepoint -> bool) (c : cursor) : option cursor :=
  match rest c with
  | x :: s => if p x then Some (Cursor (Some x) (S (pos c)) s) else None
  | [] => None
  end.

(** The iterations of [r*], [body] being the matcher of [r]: one more
    iteration if it consumes something and the rest then matches, else the
    continuation.  A subject of [n] characters allows [n] iterations. *)
Fixpoint star_loop {A : Type}
    (body : cursor -> gmap nat (nat * nat) ->
            (cursor -> gmap nat (nat * nat) -> option A) -> option A)
    (k : cursor -> gmap nat (nat * nat) -> option A)
    (fuel : nat) (c : cursor) (g : gmap nat (nat * nat)) : option A :=
  match fuel with
  | 0 => k c g
  | S fuel' =>
      match body c g (fun c' g' =>
              if pos c <? pos c' then star_loop body k fuel' c' g' else None) with
      | Some a => Some a
      | None => k c g
      end
  end.

Fixpoint rmatch {A : Type} (r : regex) (c : cursor) (g : gmap nat (nat * nat))
    (k : cursor -> gmap nat (nat * nat) -> option A) : option A :=
  match r with
  | Eps => k c g
  | Chr x => c' ← step (N.eqb x) c; k c' g
  | Digit => c' ← step isdecimal c; k c' g
  | Space => c' ← step isspace c; k c' g
  | NonSpace => c' ← step (fun x => negb (isspace x)) c; k c' g
  | WordBoundary => if at_boundary c then k c g else None
  | Seq r1 r2 => rmatch r1 c g (fun c' g' => rmatch r2 c' g' k)
  | Opt r' =>
      match rmatch r' c g k with
      | Some a => Some a
      | None => k c g
      end
  | Star r' => star_loop (rmatch r') k (S (length (rest c))) c g
  | Group n r' => rmatch r' c g (fun c' g' => k c' (<[n := (pos c, pos c')]> g'))
  end.

(** Try the pattern at the cursor, then one character further, and so on. *)
Fixpoint scan (r : regex) (subject : str) (p : option N) (i : nat) (s : str)
    : option match_obj :=
  match rmatch r (Cursor p i s) ∅ (fun c g => Some (c, g)) with
  | Some (c, g) => Some (Match r subject i (pos c) g)
  | None =>
      match s with
      | [] => None
      | x :: s' => scan r subject (Some x) (S i) s'
      end
  end.

(** [re.search(r, s)]: the leftmost match, or [None]. *)
Definition re_search (r : regex) (s : str) : option match_obj :=
  scan r s None 0 s.

(** ** The program's patterns *)

(** [\b\d+\(\d+\)\s*,\s*\d] *)
Definition volume_issue_re : regex :=
  WordBoundary +> Plus Digit +> Chr 40 +> Plus Digit +> Chr 41 +>
  Star Space +> Chr 44 +> Star Space +> Digit.

(** [\((\d{4})\)] *)
Definition year_re : regex :=
  Chr 40 +> Group 1 (Repeat 4 Digit) +> Chr 41.

(** [(https?://\S+)] *)
Definition url_re : regex :=
  Group 1 (Word (lit "http") +> Opt (Chr 115) +> Word (lit "://") +> Plus NonSpace).

(** ** The program *)

Definition JOUR : str := lit "JOUR".
Definition RPRT : str := lit "RPRT".
Definition ELEC : str := lit "ELEC".
Definition GEN : str := lit "GEN".

Definition institution_keywords : list str :=
  [ lit "department"; lit "commission"; lit "council"; lit "university";
    lit "unicef"; lit "ministry"; lit "office"; lit "organisation";
    lit "organization"; lit "government"; lit "authority" ].

Definition report_markers : list str :=
  [ lit "[press release]"; lit "[advocacy"; lit "submission to the";
    lit "briefing]"; lit "technical report"; lit "working paper";
    lit "policy paper" ].

(** [detect_reference_type(original, after_year)] *)
Definition detect_reference_type (original after_year : str) : str :=
  let low_original := lower original in
  let low_after := lower after_year in
  if str_in (lit "doi.org") low_original || str_in (lit "doi:") low_original then
    JOUR
  else if bool_decide (is_Some (re_search volume_issue_re original)) then
    JOUR
  else if existsb (fun kw => str_in kw low_original) institution_keywords
          && existsb (fun m => str_in m low_original) report_markers then
    RPRT
  else if existsb (fun kw => str_in kw low_original) institution_keywords
          && negb (str_in (lit "doi") low_original) then
    RPRT
  else
    ELEC.

(** The dictionary [parse_apa_reference] starts from. *)
Definition initial_record (original : str) : dict :=
  <["N1" := Some original]>
    (<["UR" := None]>
      (<["TI" := None]>
        (<["PY" := None]>
          (<["AU" := None]>
            (<["TY" := Some GEN]> ∅))))).

(** [parse_apa_reference(line)]; each assignment to a key of [record] is an
    insertion into the dictionary. *)
Definition parse_apa_reference (line : str) : result dict :=
  let original := strip line in
  if negb (truthy_str original) then mret ∅
  else
    let record := initial_record original in
    match re_search year_re original with
    | None => mret record
    | Some year_match =>
        year ← group year_match 1;
        let record := <["PY" := year]> record in
        let authors := strip (slice_to original (start year_match)) in
        let authors :=
          if endswith (lit ".") authors then strip (slice_to authors (-1))
          else authors in
        let authors := authors ++ lit "," in
        let record :=
          <["AU" := if truthy_str authors then Some authors else None]> record in
        let after_year := lstrip (slice_from original (end_ year_match)) in
        let after_year :=
          if startswith (lit ".") after_year then lstrip (slice_from after_year 1)
          else after_year in
        let period_index := find after_year (lit ".") in
        let '(title, remainder) :=
          if negb (period_index =? -1)%Z then
            (strip (slice_to after_year period_index),
             strip (slice_from after_year (period_index + 1)))
          else (strip after_year, []) in
        let record :=
          <["TI" := if truthy_str title then Some title else None]> record in
        let record :=
          <["TY" := Some (detect_reference_type original after_year)]> record in
        match re_search url_re original with
        | Some url_match =>
            url ← group url_match 1;
            mret (<["UR" := url]> record)
        | None => mret record
        end
    end.

(** One optional line of [record_to_ris]:
    [if record.get(k): lines.append(f"{k}  - {record[k]}")]. *)
Definition append_field (record : dict) (k : string) (lines : list str)
    : result (list str) :=
  if truthy (dict_get record k) then
    v ← dict_item record k;
    mret (lines ++ [lit k ++ lit "  - " ++ fmt v])
  else mret lines.

(** The list [lines] that [record_to_ris] builds. *)
Definition ris_lines (record : dict) : result (list str) :=
  let lines := [] in
  let ty := py_or (dict_get record "TY") (lit "GEN") in
  let lines := lines ++ [lit "TY  - " ++ ty] in
  lines ← append_field record "AU" lines;
  lines ← append_field record "TI" lines;
  lines ← append_field record "PY" lines;
  lines ← append_field record "UR" lines;
  lines ← append_field record "N1" lines;
  let lines := lines ++ [lit "ER  - "] in
  mret lines.

(** [record_to_ris(record)] *)
Definition record_to_ris (record : dict) : result str :=
  lines ← ris_lines record;
  mret (join [NL] lines ++ [NL; NL]).

(** The loop of [references_text_to_ris] over the lines still to read, with
    the entries collected so far. *)
Fixpoint convert_lines (lines : list str) (ris_entries : list str)
    : result (list str) :=
  match lines with
  | [] => mret ris_entries
  | line :: lines' =>
      let line := strip line in
      if negb (truthy_str line) then convert_lines lines' ris_entries
      else
        record ← parse_apa_reference line;
        if bool_decide (record = ∅) then convert_lines lines' ris_entries
        else
          entry ← record_to_ris record;
          convert_lines lines' (ris_entries ++ [entry])
  end.

(** [references_text_to_ris(text)] *)
Definition references_text_to_ris (text : str) : result str :=
  ris_entries ← convert_lines (splitlines text) [];
  mret (concat ris_entries).

(** ** The page

    What a click on "Convert to RIS" does: the widgets the script puts on
    the page, in order, and the exception that ends the run, if any. *)

(** [s.encode("utf-8")], as CPython's encoder computes it.  A surrogate
    (U+D800 to U+DFFF) cannot be encoded: with the default error handler the
    call raises [UnicodeEncodeError], which is [None] here.  The code points
    of a Python string are below 0x110000; the last case is that of the
    code points from 0x10000 on. *)
Definition is_surrogate (c : codepoint) : bool :=
  (55296 <=? c)%N && (c <=? 57343)%N.

Definition utf8_char (c : codepoint) : option (list N) :=
  if (c <? 128)%N then Some [c]
  else if (c <? 2048)%N then
    Some [N.lor 192 (N.shiftr c 6); N.lor 128 (N.land c 63)]
  else if is_surrogate c then None
  else if (c <? 65536)%N then
    Some [N.lor 224 (N.shiftr c 12);
          N.lor 128 (N.land (N.shiftr c 6) 63);
          N.lor 128 (N.land c 63)]
  else
    Some [N.lor 240 (N.shiftr c 18);
          N.lor 128 (N.land (N.shiftr c 12) 63);
          N.lor 128 (N.land (N.shiftr c 6) 63);
          N.lor 128 (N.land c 63)].

Fixpoint encode_utf8 (s : str) : option (list N) :=
  match s with
  | [] => Some []
  | c :: s' =>
      bytes ← utf8_char c;
      more ← encode_utf8 s';
      Some (bytes ++ more)
  end.

(** The exceptions of a run: one raised by the conversion, or the one of
    [encode]. *)
Inductive page_exn : Type :=
| Raised (e : exn)
| UnicodeEncodeError.

(** The calls that put something on the page, with their arguments. *)
Inductive widget : Type :=
| st_warning (body : list N)
| st_error (body : list N)
| st_success (body : list N)
| st_text_area (label value : list N) (height : Z)
| st_download_button (label data file_name mime : list N).

Record page : Type := Page {
  widgets : list widget;
  raised : option page_exn
}.

(** The body of [if st.button("Convert to RIS"):] for the text in the input
    box. *)
Definition convert_button (input_text : str) : page :=
  if negb (truthy_str (strip input_text)) then
    Page [st_warning (lit "Please paste at least one APA 7th reference.")] None
  else
    match references_text_to_ris input_text with
    | Raise e => Page [] (Some (Raised e))
    | Ok ris_text =>
        if negb (truthy_str (strip ris_text)) then
          Page [st_error (lit "No RIS output generated. Check that the references are in APA 7th format.")]
               None
        else
          let shown :=
            [st_success (lit "RIS output generated.");
             st_text_area (lit "RIS output") ris_text 300] in
          match encode_utf8 ris_text with
          | None => Page shown (Some UnicodeEncodeError)
          | Some data =>
              Page (shown ++
                    [st_download_button (lit "Download RIS file") data
                       (lit "references.ris")
                       (lit "application/x-research-info-systems")])
                   None
          end
    end.


(** The keys the serializer reads. *)
Definition ris_keys : list string := ["TY"; "AU"; "TI"; "PY"; "UR"; "N1"]%string.

(** ** The notions the further properties are stated with *)

(** The text before the first period of [s], or all of [s] without one. *)
Fixpoint before_period (s : str) : str :=
  match s with
  | [] => []
  | c :: s' => if (c =? 46)%N then [] else c :: before_period s'
  end.

(** [s] without the period it may start with. *)
Definition skip_period (s : str) : str :=
  match s with
  | [] => []
  | c :: s' => if (c =? 46)%N then s' else s
  end.

(** The title, given the text after the year: skip whitespace, one period
    and whitespace again, take the text up to the next period, trim it. *)
Definition title_text (post : str) : str :=
  strip (before_period (lstrip (skip_period (lstrip post)))).

(** The longest prefix of [s] without whitespace. *)
Fixpoint nonspace_prefix (s : str) : str :=
  match s with
  | [] => []
  | c :: s' => if isspace c then [] else c :: nonspace_prefix s'
  end.

(** A URL starts in [s] right after [before]: [http://] or [https://] and
    one more character that is not whitespace. *)
Definition url_at (before s : str) : Prop :=
  exists scheme x after,
    s = before ++ scheme ++ [x] ++ after /\
    (scheme = lit "http://" \/ scheme = lit "https://") /\
    isspace x = false.

(** The first URL of [s] starts right after [before]. *)
Definition first_url_at (before s : str) : Prop :=
  url_at before s /\ forall before', url_at before' s -> length before <= length before'.

(** Two ASCII characters that differ at most in letter case. *)
Definition same_letter (c c' : codepoint) : Prop :=
  is_ascii c = true /\ is_ascii c' = true /\ ascii_lower c = ascii_lower c'.

(** A pattern without groups. *)
Fixpoint group_free (r : regex) : bool :=
  match r with
  | Seq r1 r2 => group_free r1 && group_free r2
  | Opt r' | Star r' => group_free r'
  | Group _ _ => false
  | _ => true
  end.


(** ** What the patterns mean

    [matches r p s t]: the pattern [r] matches the text [s] when [p] is the
    character before [s] (if any) and [t] is the text after it. *)

Definition last_of (p : option N) (s : str) : option N :=
  match last s with
  | Some x => Some x
  | None => p
  end.

Definition boundary (p : option N) (t : str) : bool :=
  xorb (from_option isword false p) (from_option isword false (head t)).

Inductive matches : regex -> option N -> list N -> list N -> Prop :=
| M_Eps p t : matches Eps p [] t
| M_Chr x p t : matches (Chr x) p [x] t
| M_Digit x p t : isdecimal x = true -> matches Digit p [x] t
| M_Space x p t : isspace x = true -> matches Space p [x] t
| M_NonSpace x p t : isspace x = false -> matches NonSpace p [x] t
| M_WordBoundary p t : boundary p t = true -> matches WordBoundary p [] t
| M_Seq r1 r2 p s1 s2 t :
    matches r1 p s1 (s2 ++ t) -> matches r2 (last_of p s1) s2 t ->
    matches (r1 +> r2) p (s1 ++ s2) t
| M_Opt_some r p s t : matches r p s t -> matches (Opt r) p s t
| M_Opt_none r p t : matches (Opt r) p [] t
| M_Star_nil r p t : matches (Star r) p [] t
| M_Star_cons r p s1 s2 t :
    s1 <> [] -> matches r p s1 (s2 ++ t) ->
    matches (Star r) (last_of p s1) s2 t ->
    matches (Star r) p (s1 ++ s2) t
| M_Group n r p s t : matches r p s t -> matches (Group n r) p s t.

(** The cursor after the text [s], with [t] left to read. *)
Definition advance (c : cursor) (s t : str) : cursor :=
  Cursor (last_of (prev c) s) (length s + pos c) t.

(** What a successful run of a matcher for [r] shows. *)
Definition sound_for {A : Type} (r : regex)
    (m : cursor -> gmap nat (nat * nat) ->
         (cursor -> gmap nat (nat * nat) -> option A) -> option A) : Prop :=
  forall c g k a, m c g k = Some a ->
    exists s t g', rest c = s ++ t /\ matches r (prev c) s t /\
                   k (advance c s t) g' = Some a.

(** What a match of [r] guarantees about a matcher for [r]: it succeeds
    whenever the continuation accepts the end of that match. *)
Definition complete_for {A : Type} (r : regex)
    (m : cursor -> gmap nat (nat * nat) ->
         (cursor -> gmap nat (nat * nat) -> option A) -> option A) : Prop :=
  forall c g k s t, rest c = s ++ t -> matches r (prev c) s t ->
    (forall g', is_Some (k (advance c s t) g')) -> is_Some (m c g k).

(** ** The notions the claims are stated with *)

(** [needle] occurs in [hay]. *)
Definition occurs_in (needle hay : str) : Prop :=
  exists a b, hay = a ++ needle ++ b.

Definition digits (s : str) : Prop := Forall (fun c => isdecimal c = true) s.
Definition spaces (s : str) : Prop := Forall (fun c => isspace c = true) s.

(** A parenthesized 4-digit year stands in [s] right after [pre]. *)
Definition year_at (pre s : str) : Prop :=
  exists y post, s = pre ++ [40%N] ++ y ++ [41%N] ++ post /\ length y = 4 /\ digits y.

Definition has_year (s : str) : Prop := exists pre, year_at pre s.

(** The first parenthesized year of [s] stands right after [pre]. *)
Definition first_year_at (pre s : str) : Prop :=
  year_at pre s /\ forall pre', year_at pre' s -> length pre <= length pre'.

(** The DOI indicator: [doi.org] or [doi:] in the lowered line. *)
Definition has_doi_indicator (s : str) : Prop :=
  occurs_in (lit "doi.org") (lower s) \/ occurs_in (lit "doi:") (lower s).

(** The volume(issue), page pattern in the words of the specification: one
    or more digits, an opening parenthesis, one or more digits, a closing
    parenthesis, optional whitespace, a comma, whitespace, a digit.  The
    whitespace after the comma may be empty here too, as it may in the
    code. *)
Definition volume_issue_page_words (s : str) : Prop :=
  exists pre v i w1 w2 d post,
    s = pre ++ v ++ [40%N] ++ i ++ [41%N] ++ w1 ++ [44%N] ++ w2 ++ [d] ++ post /\
    v <> [] /\ digits v /\ i <> [] /\ digits i /\
    spaces w1 /\ spaces w2 /\ isdecimal d = true.

(** The same pattern where the first run of digits starts at a word boundary:
    no letter, digit or underscore stands right before it. *)
Definition volume_issue_page (s : str) : Prop :=
  exists pre v i w1 w2 d post,
    s = pre ++ v ++ [40%N] ++ i ++ [41%N] ++ w1 ++ [44%N] ++ w2 ++ [d] ++ post /\
    v <> [] /\ digits v /\ i <> [] /\ digits i /\
    spaces w1 /\ spaces w2 /\ isdecimal d = true /\
    from_option isword false (last pre) = false.

Definition has_institution_keyword (s : str) : Prop :=
  exists kw, In kw institution_keywords /\ occurs_in kw (lower s).

Definition has_report_marker (s : str) : Prop :=
  exists m, In m report_markers /\ occurs_in m (lower s).

(** The tags of the optional fields, in the order of the output. *)
Definition field_tags : list string := ["AU"; "TI"; "PY"; "UR"; "N1"]%string.

(** The lines of a text, cut at each newline: [text.split("\n")]. *)
Fixpoint text_lines (s : str) : list str :=
  match s with
  | [] => [[]]
  | c :: s' =>
      if (c =? NL)%N then [] :: text_lines s'
      else match text_lines s' with
           | [] => [[c]]
           | l :: ls => (c :: l) :: ls
           end
  end.

(** A line of tag [k] with some value stands among [lines]. *)
Definition emitted (k : string) (lines : list str) : Prop :=
  exists v, In (lit k ++ lit "  - " ++ v) lines.

(** The line of the field [k] of a record, if the field is present and not
    empty. *)
Definition field_line (record : dict) (k : string) : list str :=
  match dict_get record k with
  | Some (c :: v) => [lit k ++ lit "  - " ++ c :: v]
  | _ => []
  end.

(** The same as text: the line and its newline, or nothing. *)
Definition field_text (record : dict) (k : string) : str :=
  match dict_get record k with
  | Some (c :: v) => lit k ++ lit "  - " ++ (c :: v) ++ [NL]
  | _ => []
  end.

(** The field [k] of the record the extractor returns for [line]. *)
Definition parsed_field (line : str) (k : string) : result value :=
  record ← parse_apa_reference line;
  mret (dict_get record k).

(** The block of a line in which no year is found: nothing for a blank line,
    else the type GEN, the trimmed line as note, and the end marker. *)
Definition generic_block (raw : str) : str :=
  lit "TY  - GEN" ++ [NL] ++ lit "N1  - " ++ raw ++ [NL] ++
  lit "ER  - " ++ [NL] ++ [NL].

Definition generic_entry (line : str) : str :=
  match strip line with
  | [] => []
  | raw => generic_block raw
  end.

(** A line with nothing but whitespace. *)
Definition blank (line : str) : Prop := strip line = [].

(** The author text as the amended claim C2 words it: the text before the
    year, trimmed, without one trailing period, trimmed again. *)
Definition drop_period (s : str) : str :=
  match last s with
  | Some 46%N => removelast s
  | _ => s
  end.

Definition author_text (pre : str) : str := strip (drop_period (strip pre)).

(** The author text in the words of claim C2: the text before the year,
    trimmed, without one trailing period. *)
Definition author_text_words (pre : str) : str := drop_period (strip pre).

(** ** Strings: prefixes, occurrences, slices *)

Lemma startswith_spec (p s : list N) :
  startswith p s = true <-> exists t, s = p ++ t.
Proof.
  revert s. induction p as [|a p IH]; intros s; simpl.
  - split; [intros _; by exists s | done].
  - destruct s as [|b s]; simpl.
    + split; [done | intros [t Ht]; discriminate].
    + rewrite andb_true_iff, N.eqb_eq, IH. split.
      * intros [-> [t ->]]. by exists t.
      * intros [t Ht]. injection Ht as -> ->. split; [done | by exists t].
Qed.

Lemma str_in_spec (needle hay : list N) :
  str_in needle hay = true <-> occurs_in needle hay.
Proof.
  unfold occurs_in. induction hay as [|c hay IH]; simpl.
  - rewrite orb_false_r, startswith_spec. split.
    + intros [t Ht]. by exists [], t.
    + intros (a & b & H). destruct a; [by exists b|discriminate].
  - rewrite orb_true_iff, startswith_spec, IH. split.
    + intros [[t Ht] | (a & b & Hab)].
      * by exists [], t.
      * exists (c :: a), b. by rewrite Hab.
    + intros (a & b & Hab). destruct a as [|x a]; simpl in Hab.
      * left. by exists b.
      * right. injection Hab as -> ->. by exists a, b.
Qed.

Lemma str_in_false (needle hay : list N) :
  str_in needle hay = false <-> ~ occurs_in needle hay.
Proof. rewrite <- str_in_spec. by destruct (str_in needle hay). Qed.

Lemma occurs_in_app (needle a s b : list N) :
  occurs_in needle s -> occurs_in needle (a ++ s ++ b).
Proof.
  intros (x & y & ->). exists (a ++ x), (y ++ b).
  by rewrite <- !app_assoc.
Qed.

Lemma slice_to_of_nat (s : list N) (n : nat) :
  slice_to s (Z.of_nat n) = take n s.
Proof.
  unfold slice_to, slice_index.
  destruct (Z.ltb_spec (Z.of_nat n) 0) as [H|_]; [lia|].
  destruct (le_lt_dec n (length s)) as [Hn|Hn].
  - f_equal. lia.
  - replace (Z.to_nat _) with (length s) by lia.
    by rewrite !take_ge by lia.
Qed.

Lemma slice_from_of_nat (s : list N) (n : nat) :
  slice_from s (Z.of_nat n) = drop n s.
Proof.
  unfold slice_from, slice_index.
  destruct (Z.ltb_spec (Z.of_nat n) 0) as [H|_]; [lia|].
  destruct (le_lt_dec n (length s)) as [Hn|Hn].
  - f_equal. lia.
  - replace (Z.to_nat _) with (length s) by lia.
    by rewrite !drop_ge by lia.
Qed.

(** ** Trimming *)

Lemma lstrip_split (s : list N) :
  exists a, s = a ++ lstrip s /\ spaces a.
Proof.
  induction s as [|c s (a & Ha & Hsp)]; simpl.
  - exists []. split; [done | constructor].
  - destruct (isspace c) eqn:Hc.
    + exists (c :: a). split; [by rewrite Ha at 1 | by constructor].
    + exists []. split; [done | constructor].
Qed.

Lemma lstrip_head (s : list N) :
  from_option isspace false (head (lstrip s)) = false.
Proof.
  induction s as [|c s IH]; simpl; [done|].
  destruct (isspace c) eqn:Hc; [done | by simpl].
Qed.

Lemma lstrip_fixed (s : list N) :
  from_option isspace false (head s) = false -> lstrip s = s.
Proof. destruct s as [|c s]; simpl; [done | by intros ->]. Qed.

Lemma lstrip_idem (s : list N) : lstrip (lstrip s) = lstrip s.
Proof. apply lstrip_fixed, lstrip_head. Qed.

Lemma rstrip_split (s : list N) :
  exists b, s = rstrip s ++ b /\ spaces b.
Proof.
  unfold rstrip. destruct (lstrip_split (reverse s)) as (a & Ha & Hsp).
  exists (reverse a). split.
  - rewrite <- reverse_app, <- Ha. by rewrite reverse_involutive.
  - unfold spaces in *. by apply Forall_reverse.
Qed.

Lemma rstrip_last (s : list N) :
  from_option isspace false (last (rstrip s)) = false.
Proof. unfold rstrip. rewrite last_reverse. apply lstrip_head. Qed.

Lemma rstrip_fixed (s : list N) :
  from_option isspace false (last s) = false -> rstrip s = s.
Proof.
  intros H. unfold rstrip. rewrite lstrip_fixed.
  - apply reverse_involutive.
  - by rewrite head_reverse.
Qed.

Lemma rstrip_head (s : list N) :
  from_option isspace false (head s) = false ->
  from_option isspace false (head (rstrip s)) = false.
Proof.
  intros H. destruct (rstrip_split s) as (b & Hb & _).
  destruct (rstrip s) as [|c r]; [done|].
  rewrite Hb in H. exact H.
Qed.

Lemma strip_head (s : list N) :
  from_option isspace false (head (strip s)) = false.
Proof. apply rstrip_head, lstrip_head. Qed.

Lemma strip_last (s : list N) :
  from_option isspace false (last (strip s)) = false.
Proof. apply rstrip_last. Qed.

Lemma strip_fixed (s : list N) :
  from_option isspace false (head s) = false ->
  from_option isspace false (last s) = false ->
  strip s = s.
Proof.
  intros Hh Hl. unfold strip. rewrite (lstrip_fixed s Hh). by apply rstrip_fixed.
Qed.

Lemma strip_idem (s : list N) : strip (strip s) = strip s.
Proof. apply strip_fixed; [apply strip_head | apply strip_last]. Qed.

Lemma strip_split (s : list N) :
  exists a b, s = a ++ strip s ++ b /\ spaces a /\ spaces b.
Proof.
  destruct (lstrip_split s) as (a & Ha & Hsa).
  destruct (rstrip_split (lstrip s)) as (b & Hb & Hsb).
  exists a, b. split; [|done]. unfold strip. by rewrite <- Hb.
Qed.


(** ** The matcher finds exactly the matches *)

Lemma last_of_app (p : option N) (s1 s2 : list N) :
  last_of (last_of p s1) s2 = last_of p (s1 ++ s2).
Proof.
  unfold last_of. rewrite last_app. by destruct (last s2), (last s1).
Qed.

Lemma advance_nil (c : cursor) : advance c [] (rest c) = c.
Proof. by destruct c. Qed.

Lemma advance_app (c : cursor) (s1 s2 t : list N) :
  advance (advance c s1 (s2 ++ t)) s2 t = advance c (s1 ++ s2) t.
Proof.
  unfold advance; simpl. rewrite last_of_app, length_app. f_equal. lia.
Qed.

Lemma step_spec (P : N -> bool) (c c' : cursor) :
  step P c = Some c' <->
  exists x t, rest c = x :: t /\ P x = true /\ c' = advance c [x] t.
Proof.
  unfold step, advance. destruct (rest c) as [|x t]; simpl.
  - split; [done | by intros (? & ? & ? & _)].
  - destruct (P x) eqn:HP; split.
    + intros [= <-]. by exists x, t.
    + intros (? & ? & [= <- <-] & _ & ->). done.
    + done.
    + intros (? & ? & [= <- <-] & ? & _). congruence.
Qed.

Lemma at_boundary_advance (c : cursor) :
  at_boundary c = boundary (prev c) (rest c).
Proof. done. Qed.

Section Soundness.

Context {A : Type}.

Implicit Types (c : cursor) (g : gmap nat (nat * nat)).
Implicit Types (k : cursor -> gmap nat (nat * nat) -> option A).

Lemma step_sound (P : N -> bool) (r : regex) :
  (forall x p t, P x = true -> matches r p [x] t) ->
  sound_for r (fun c g k => c' ← step P c; k c' g).
Proof.
  intros Hr c g k a H. destruct (step P c) as [c'|] eqn:Hs; [|done].
  apply step_spec in Hs as (x & t & Hrest & HP & ->).
  exists [x], t, g. eauto.
Qed.

Lemma star_loop_sound (r : regex) body k :
  sound_for r body ->
  forall fuel c g a, star_loop body k fuel c g = Some a ->
    exists s t g', rest c = s ++ t /\ matches (Star r) (prev c) s t /\
                   k (advance c s t) g' = Some a.
Proof.
  intros Hbody. induction fuel as [|fuel IH]; intros c g a H; simpl in H.
  - exists [], (rest c), g. rewrite advance_nil. split_and!; [done|constructor|done].
  - destruct (body c g _) as [a'|] eqn:Hb.
    + injection H as ->.
      apply Hbody in Hb as (s1 & t1 & g1 & Hrest & Hm & Hk).
      destruct (Nat.ltb_spec (pos c) (pos (advance c s1 t1))) as [Hlt|]; [|done].
      apply IH in Hk as (s2 & t & g' & Hrest2 & Hm2 & Hk).
      simpl in Hrest2, Hm2. subst t1.
      exists (s1 ++ s2), t, g'. rewrite <- advance_app, <- app_assoc.
      split_and!; [done| |done].
      constructor; [|done..]. intros ->. simpl in Hlt. lia.
    + exists [], (rest c), g. rewrite advance_nil.
      split_and!; [done|constructor|done].
Qed.

Lemma rmatch_sound (r : regex) : sound_for (A:=A) r (rmatch r).
Proof.
  induction r as [|x| | | | |r1 IH1 r2 IH2|r IH|r IH|n r IH]; simpl.
  - intros c g k a H. exists [], (rest c), g. rewrite advance_nil.
    split_and!; [done|constructor|done].
  - apply step_sound. intros x' p t ->%N.eqb_eq. constructor.
  - apply step_sound. by constructor.
  - apply step_sound. by constructor.
  - apply step_sound. intros x p t ?%negb_true_iff. by constructor.
  - intros c g k a H. destruct (at_boundary c) eqn:Hb; [|done].
    exists [], (rest c), g. rewrite advance_nil.
    split_and!; [done|by constructor|done].
  - intros c g k a H.
    apply IH1 in H as (s1 & t1 & g1 & Hrest & Hm1 & H).
    apply IH2 in H as (s2 & t & g' & Hrest2 & Hm2 & H).
    simpl in Hrest2, Hm2. subst t1. rewrite advance_app in H.
    exists (s1 ++ s2), t, g'. rewrite <- app_assoc.
    split_and!; [done|by constructor|done].
  - intros c g k a H. destruct (rmatch r c g k) as [a'|] eqn:Hr.
    + injection H as ->. apply IH in Hr as (s & t & g' & ? & ? & ?).
      exists s, t, g'. split_and!; [done|by constructor|done].
    + exists [], (rest c), g. rewrite advance_nil.
      split_and!; [done|apply M_Opt_none|done].
  - intros c g k a H.
    exact (star_loop_sound r _ k IH (S (length (rest c))) c g a H).
  - intros c g k a H. apply IH in H as (s & t & g' & ? & ? & ?).
    exists s, t, (<[n := (pos c, pos (advance c s t))]> g').
    split_and!; [done|by constructor|done].
Qed.

Lemma step_complete (P : N -> bool) (r : regex) :
  (forall p s t, matches r p s t -> exists x, s = [x] /\ P x = true) ->
  complete_for r (fun c g k => c' ← step P c; k c' g).
Proof.
  intros Hr c g k s t Hrest Hm Hk.
  apply Hr in Hm as (x & -> & HP).
  assert (step P c = Some (advance c [x] t)) as ->.
  { apply step_spec. by exists x, t. }
  apply Hk.
Qed.

Lemma star_loop_complete (r : regex) body k :
  complete_for r body ->
  forall fuel c g s t, length (rest c) < fuel ->
    rest c = s ++ t -> matches (Star r) (prev c) s t ->
    (forall g', is_Some (k (advance c s t) g')) ->
    is_Some (star_loop body k fuel c g).
Proof.
  intros Hbody. induction fuel as [|fuel IH]; intros c g s t Hlen Hrest Hm Hk; [lia|].
  simpl. inversion Hm as [| | | | | | | | |r' p t'|r' p s1 s2 t' Hne Hm1 Hm2|]; subst.
  - specialize (Hk g). simpl in Hrest. rewrite <- Hrest, advance_nil in Hk.
    by destruct (body c g _).
  - rewrite <- app_assoc in Hrest.
    assert (is_Some (body c g (fun c' g' =>
              if pos c <? pos c' then star_loop body k fuel c' g' else None))) as [a ->]; [|done].
    apply (Hbody c g _ s1 (s2 ++ t) Hrest Hm1). intros g'.
    destruct (Nat.ltb_spec (pos c) (pos (advance c s1 (s2 ++ t)))) as [_|Hge].
    + apply (IH _ _ s2 t); simpl; [|done|done|].
      * rewrite Hrest, length_app in Hlen. destruct s1; [done|]. simpl in Hlen. lia.
      * intros g''. rewrite advance_app. apply Hk.
    + simpl in Hge. destruct s1; [done|]. simpl in Hge. lia.
Qed.

Lemma rmatch_complete (r : regex) : complete_for (A:=A) r (rmatch r).
Proof.
  induction r as [|x| | | | |r1 IH1 r2 IH2|r IH|r IH|n r IH]; simpl.
  - intros c g k s t Hrest Hm Hk. inversion Hm; subst.
    specialize (Hk g). simpl in Hrest. by rewrite <- Hrest, advance_nil in Hk.
  - apply step_complete. intros p s t Hm. inversion Hm; subst.
    exists x. by rewrite N.eqb_refl.
  - apply step_complete. intros p s t Hm. inversion Hm; subst. eauto.
  - apply step_complete. intros p s t Hm. inversion Hm; subst. eauto.
  - apply step_complete. intros p s t Hm. inversion Hm; subst.
    eexists. split; [done|]. by apply negb_true_iff.
  - intros c g k s t Hrest Hm Hk. inversion Hm as [| | | | |p' t' Hb| | | | | |]; subst.
    simpl in Hrest. rewrite at_boundary_advance, Hrest, Hb.
    specialize (Hk g). simpl in Hrest. by rewrite <- Hrest, advance_nil in Hk.
  - intros c g k s t Hrest Hm Hk.
    inversion Hm as [| | | | | |r1' r2' p s1 s2 t' Hm1 Hm2| | | | |]; subst.
    rewrite <- app_assoc in Hrest.
    apply (IH1 c g _ s1 (s2 ++ t) Hrest Hm1). intros g'.
    apply (IH2 _ g' k s2 t); [done|done|].
    intros g''. rewrite advance_app. apply Hk.
  - intros c g k s t Hrest Hm Hk.
    inversion Hm as [| | | | | | |r' p s' t' Hm'|r' p t'| | |]; subst.
    + destruct (IH c g k s t Hrest Hm' Hk) as [a ->]. done.
    + specialize (Hk g). simpl in Hrest. rewrite <- Hrest, advance_nil in Hk.
      by destruct (rmatch r c g k).
  - intros c g k s t Hrest Hm Hk.
    apply (star_loop_complete r _ k IH (S (length (rest c))) c g s t); [lia|done..].
  - intros c g k s t Hrest Hm Hk.
    inversion Hm; subst. apply (IH c g _ s t); [done|done|].
    intros g'. apply Hk.
Qed.

End Soundness.


(** ** [re.search] returns the leftmost match *)

Lemma last_of_cons (p : option N) (x : N) (s : list N) :
  last_of p (x :: s) = last_of (Some x) s.
Proof.
  unfold last_of. destruct s as [|y s]; [done|].
  change (last (x :: y :: s)) with (last (y :: s)).
  destruct (last (y :: s)) eqn:E; [done|]. by apply last_None in E.
Qed.

Lemma rmatch_top_None (r : regex) (p : option N) (i : nat) (s mid post : list N) :
  rmatch r (Cursor p i s) ∅ (fun c g => Some (c, g)) = None ->
  s = mid ++ post -> ~ matches r p mid post.
Proof.
  intros Hnone Hs Hm.
  destruct (rmatch_complete r (Cursor p i s) ∅ (fun c g => Some (c, g)) mid post)
    as [a Ha]; [done|done|by eexists|].
  congruence.
Qed.

Lemma scan_sound (r : regex) (subject : list N) (s : list N) :
  forall p i m, scan r subject p i s = Some m ->
    exists pre mid post,
      s = pre ++ mid ++ post /\
      m_start m = length pre + i /\
      m_end m = length mid + m_start m /\
      matches r (last_of p pre) mid post /\
      (forall pre' mid' post', s = pre' ++ mid' ++ post' ->
         matches r (last_of p pre') mid' post' -> length pre <= length pre') /\
      m_re m = r /\ m_string m = subject.
Proof.
  induction s as [|x s IH]; intros p i m H; simpl in H.
  - destruct (rmatch r _ _ _) as [[c g]|] eqn:Hr; [|done]. injection H as <-.
    apply rmatch_sound in Hr as (mid & post & g' & Hrest & Hm & [= <- <-]).
    exists [], mid, post. simpl in *. split_and!; auto with lia.
  - destruct (rmatch r _ _ _) as [[c g]|] eqn:Hr.
    + injection H as <-.
      apply rmatch_sound in Hr as (mid & post & g' & Hrest & Hm & [= <- <-]).
      exists [], mid, post. simpl in *. split_and!; auto with lia.
    + apply IH in H as (pre & mid & post & Hs & Hst & Hen & Hm & Hfirst & Hre & Hsub).
      exists (x :: pre), mid, post. rewrite last_of_cons. simpl.
      split_and!; [by rewrite Hs|lia|done|done| |done|done].
      intros [|y pre'] mid' post' Hs' Hm'.
      * exfalso. exact (rmatch_top_None r p i (x :: s) mid' post' Hr Hs' Hm').
      * simpl in Hs'. injection Hs' as <- Hs'. rewrite last_of_cons in Hm'.
        specialize (Hfirst pre' mid' post' Hs' Hm'). simpl. lia.
Qed.

Lemma scan_complete (r : regex) (subject : list N) (pre mid post : list N) :
  forall p i, matches r (last_of p pre) mid post ->
    is_Some (scan r subject p i (pre ++ mid ++ post)).
Proof.
  induction pre as [|x pre IH]; intros p i Hm.
  - destruct (rmatch_complete r (Cursor p i (mid ++ post)) ∅
                (fun c g => Some (c, g)) mid post) as [[c g] Ha];
      [done|done|by eexists|].
    destruct mid, post; simpl in *; rewrite Ha; by eexists.
  - simpl. destruct (rmatch r _ _ _) as [[c g]|]; [by eexists|].
    apply IH. by rewrite <- (last_of_cons p).
Qed.

Lemma re_search_is_Some (r : regex) (s : list N) :
  is_Some (re_search r s) <->
  exists pre mid post, s = pre ++ mid ++ post /\ matches r (last pre) mid post.
Proof.
  unfold re_search. split.
  - intros [m Hm]. apply scan_sound in Hm as (pre & mid & post & Hs & _ & _ & Hm & _).
    exists pre, mid, post. split; [done|]. unfold last_of in Hm. by destruct (last pre).
  - intros (pre & mid & post & -> & Hm). apply scan_complete.
    unfold last_of. by destruct (last pre).
Qed.

Lemma re_search_pattern (r : regex) (s : list N) (m : match_obj) :
  re_search r s = Some m -> m_re m = r /\ m_string m = s.
Proof.
  intros H. by apply scan_sound in H as (? & ? & ? & _ & _ & _ & _ & _ & ? & ?).
Qed.

(** ** The three patterns, read *)

Lemma matches_seq (r1 r2 : regex) (p : option N) (s t : list N) :
  matches (r1 +> r2) p s t <->
  exists s1 s2, s = s1 ++ s2 /\ matches r1 p s1 (s2 ++ t) /\
                matches r2 (last_of p s1) s2 t.
Proof.
  split.
  - intros H. inversion H; subst. eauto.
  - intros (s1 & s2 & -> & H1 & H2). by constructor.
Qed.

Lemma matches_chr (x : N) (p : option N) (s t : list N) :
  matches (Chr x) p s t <-> s = [x].
Proof. split; [intros H; by inversion H | intros ->; constructor]. Qed.

Lemma matches_digit (p : option N) (s t : list N) :
  matches Digit p s t <-> exists x, s = [x] /\ isdecimal x = true.
Proof.
  split; [intros H; inversion H; eauto | intros (x & -> & ?); by constructor].
Qed.

Lemma matches_space (p : option N) (s t : list N) :
  matches Space p s t <-> exists x, s = [x] /\ isspace x = true.
Proof.
  split; [intros H; inversion H; eauto | intros (x & -> & ?); by constructor].
Qed.

Lemma matches_eps (p : option N) (s t : list N) :
  matches Eps p s t <-> s = [].
Proof. split; [intros H; by inversion H | intros ->; constructor]. Qed.

Lemma matches_group (n : nat) (r : regex) (p : option N) (s t : list N) :
  matches (Group n r) p s t <-> matches r p s t.
Proof. split; [intros H; by inversion H | by constructor]. Qed.

Lemma matches_boundary (p : option N) (s t : list N) :
  matches WordBoundary p s t <-> s = [] /\ boundary p t = true.
Proof.
  split; [intros H; by inversion H | intros [-> ?]; by constructor].
Qed.

(** [c*] for a character class [c] matches the runs of characters of the
    class. *)
Lemma matches_star_class (r : regex) (P : N -> bool) :
  (forall p s t, matches r p s t <-> exists x, s = [x] /\ P x = true) ->
  forall p s t, matches (Star r) p s t <-> Forall (fun c => P c = true) s.
Proof.
  intros Hr p s t. split.
  - intros H. remember (Star r) as r' eqn:Er.
    induction H as [| | | | | | | | |r0 p t|r0 p s1 s2 t Hne H1 _ H2 IH|]; try discriminate.
    + constructor.
    + injection Er as ->. apply Hr in H1 as (x & -> & HP).
      constructor; [done | by apply IH].
  - revert p. induction s as [|x s IH]; intros p Hall.
    + constructor.
    + inversion Hall; subst. change (x :: s) with ([x] ++ s).
      constructor; [done| |by apply IH]. apply Hr. eauto.
Qed.

Lemma matches_plus_class (r : regex) (P : N -> bool) :
  (forall p s t, matches r p s t <-> exists x, s = [x] /\ P x = true) ->
  forall p s t, matches (Plus r) p s t <-> s <> [] /\ Forall (fun c => P c = true) s.
Proof.
  intros Hr p s t. unfold Plus. rewrite matches_seq. split.
  - intros (s1 & s2 & -> & H1 & H2).
    apply Hr in H1 as (x & -> & HP).
    apply (matches_star_class r P Hr) in H2. split; [done | by constructor].
  - intros [Hne Hall]. destruct s as [|x s]; [done|]. inversion Hall; subst.
    exists [x], s. split_and!; [done| |].
    + apply Hr. eauto.
    + by apply (matches_star_class r P Hr).
Qed.


Lemma matches_year_re (p : option N) (mid post : list N) :
  matches year_re p mid post <->
  exists y, mid = [40%N] ++ y ++ [41%N] /\ length y = 4 /\ digits y.
Proof.
  unfold year_re. split.
  - intros H.
    apply matches_seq in H as (s1 & s2 & -> & ->%matches_chr & H).
    apply matches_seq in H as (y & s3 & -> & Hy%matches_group & ->%matches_chr).
    exists y. split; [done|]. simpl in Hy.
    apply matches_seq in Hy as (? & y1 & -> & (a & -> & Ha)%matches_digit & Hy).
    apply matches_seq in Hy as (? & y2 & -> & (b & -> & Hb)%matches_digit & Hy).
    apply matches_seq in Hy as (? & y3 & -> & (c & -> & Hc)%matches_digit & Hy).
    apply matches_seq in Hy as (? & y4 & -> & (d & -> & Hd)%matches_digit & ->%matches_eps).
    split; [done|]. by repeat constructor.
  - intros (y & -> & Hlen & Hd).
    destruct y as [|a [|b [|c [|d [|]]]]]; try discriminate.
    inversion Hd as [|? ? Ha Hd1]; subst. inversion Hd1 as [|? ? Hb Hd2]; subst.
    inversion Hd2 as [|? ? Hc Hd3]; subst. inversion Hd3 as [|? ? He _]; subst.
    apply matches_seq. exists [40%N], ([a; b; c; d] ++ [41%N]).
    split_and!; [done|constructor|].
    apply matches_seq. exists [a; b; c; d], [41%N].
    split_and!; [done| |constructor].
    apply matches_group. simpl.
    change [a; b; c; d] with ([a] ++ [b] ++ [c] ++ [d] ++ []).
    repeat (constructor; [by constructor|]). constructor.
Qed.

Lemma has_year_search (s : list N) :
  has_year s <-> is_Some (re_search year_re s).
Proof.
  rewrite re_search_is_Some. unfold has_year, year_at. split.
  - intros (pre & y & post & -> & Hlen & Hd).
    exists pre, ([40%N] ++ y ++ [41%N]), post. split.
    + by rewrite <- !app_assoc.
    + apply matches_year_re. eauto.
  - intros (pre & mid & post & -> & (y & -> & Hlen & Hd)%matches_year_re).
    exists pre, y, post. by rewrite <- !app_assoc.
Qed.

Lemma no_year_search (s : list N) :
  ~ has_year s <-> re_search year_re s = None.
Proof.
  rewrite has_year_search. destruct (re_search year_re s); split; intros H.
  - destruct H. by eexists.
  - done.
  - done.
  - by intros [? ?].
Qed.

(** The match [re.search] finds for the year pattern is the first
    parenthesized year. *)
Lemma year_search_first (s : list N) (m : match_obj) :
  re_search year_re s = Some m ->
  exists pre y post,
    s = pre ++ [40%N] ++ y ++ [41%N] ++ post /\ length y = 4 /\ digits y /\
    first_year_at pre s /\
    m_start m = length pre /\ m_end m = length pre + 6.
Proof.
  intros H. apply scan_sound in H
    as (pre & mid & post & Hs & Hst & Hen & Hm & Hfirst & _).
  apply matches_year_re in Hm as (y & -> & Hlen & Hd).
  rewrite <- !app_assoc in Hs.
  exists pre, y, post. split_and!; [done|done|done| |lia|].
  - split; [by exists y, post|].
    intros pre' (y' & post' & Hs' & Hlen' & Hd').
    apply (Hfirst pre' ([40%N] ++ y' ++ [41%N]) post').
    + by rewrite <- !app_assoc.
    + apply matches_year_re. eauto.
  - rewrite Hen, Hst, !length_app, Hlen. simpl. lia.
Qed.

Lemma first_year_search (pre s : list N) :
  first_year_at pre s ->
  exists m, re_search year_re s = Some m /\
            m_start m = length pre /\ m_end m = length pre + 6.
Proof.
  intros [Hy Hfirst].
  destruct (proj1 (has_year_search s)) as [m Hm]; [by exists pre|].
  exists m. split; [done|].
  destruct (year_search_first s m Hm)
    as (pre0 & y & post & Hs & Hlen & Hd & [Hy0 Hfirst0] & Hst & Hen).
  specialize (Hfirst pre0 Hy0). specialize (Hfirst0 pre Hy). lia.
Qed.

Lemma isdecimal_isword (x : N) : isdecimal x = true -> isword x = true.
Proof.
  intros H. unfold isword, isalnum. rewrite H.
  by rewrite orb_true_r.
Qed.

Lemma matches_volume_issue_re (p : option N) (mid post : list N) :
  matches volume_issue_re p mid post <->
  exists v i w1 w2 d,
    mid = v ++ [40%N] ++ i ++ [41%N] ++ w1 ++ [44%N] ++ w2 ++ [d] /\
    v <> [] /\ digits v /\ i <> [] /\ digits i /\
    spaces w1 /\ spaces w2 /\ isdecimal d = true /\
    from_option isword false p = false.
Proof.
  unfold volume_issue_re, digits, spaces. split.
  - intros H.
    apply matches_seq in H as (? & s1 & -> & [-> Hb]%matches_boundary & H).
    apply matches_seq in H as (v & s2 & -> & Hv & H).
    apply (matches_plus_class Digit isdecimal matches_digit) in Hv as [Hv Hdv].
    apply matches_seq in H as (? & s3 & -> & ->%matches_chr & H).
    apply matches_seq in H as (i & s4 & -> & Hi & H).
    apply (matches_plus_class Digit isdecimal matches_digit) in Hi as [Hi Hdi].
    apply matches_seq in H as (? & s5 & -> & ->%matches_chr & H).
    apply matches_seq in H as (w1 & s6 & -> & Hw1 & H).
    apply (matches_star_class Space isspace matches_space) in Hw1.
    apply matches_seq in H as (? & s7 & -> & ->%matches_chr & H).
    apply matches_seq in H as (w2 & s8 & -> & Hw2 & (d & -> & Hd)%matches_digit).
    apply (matches_star_class Space isspace matches_space) in Hw2.
    exists v, i, w1, w2, d. split_and!; try done.
    destruct v as [|x v]; [done|]. inversion Hdv as [|? ? Hx _]; subst.
    unfold boundary in Hb. simpl in Hb.
    rewrite (isdecimal_isword x Hx) in Hb.
    by destruct (from_option isword false p).
  - intros (v & i & w1 & w2 & d & -> & Hv & Hdv & Hi & Hdi & Hw1 & Hw2 & Hd & Hp).
    apply matches_seq. exists [], (v ++ [40%N] ++ i ++ [41%N] ++ w1 ++ [44%N] ++ w2 ++ [d]).
    split_and!; [done| |].
    { apply matches_boundary. split; [done|].
      destruct v as [|x v]; [done|]. inversion Hdv as [|? ? Hx _]; subst.
      unfold boundary. simpl. by rewrite (isdecimal_isword x Hx), Hp. }
    apply matches_seq. eexists _, _. split_and!; [done| |].
    { by apply (matches_plus_class Digit isdecimal matches_digit). }
    apply matches_seq. eexists _, _. split_and!; [done|by apply matches_chr|].
    apply matches_seq. eexists _, _. split_and!; [done| |].
    { by apply (matches_plus_class Digit isdecimal matches_digit). }
    apply matches_seq. eexists _, _. split_and!; [done|by apply matches_chr|].
    apply matches_seq. eexists _, _. split_and!; [done| |].
    { by apply (matches_star_class Space isspace matches_space). }
    apply matches_seq. eexists _, _. split_and!; [done|by apply matches_chr|].
    apply matches_seq. eexists _, _. split_and!; [done| |].
    { by apply (matches_star_class Space isspace matches_space). }
    apply matches_digit. eauto.
Qed.

Lemma volume_issue_search (s : list N) :
  is_Some (re_search volume_issue_re s) <-> volume_issue_page s.
Proof.
  rewrite re_search_is_Some. unfold volume_issue_page. split.
  - intros (pre & mid & post & -> & H).
    apply matches_volume_issue_re in H
      as (v & i & w1 & w2 & d & -> & Hv & Hdv & Hi & Hdi & Hw1 & Hw2 & Hd & Hp).
    exists pre, v, i, w1, w2, d, post. split_and!; try done.
    by rewrite <- !app_assoc.
  - intros (pre & v & i & w1 & w2 & d & post & -> & Hv & Hdv & Hi & Hdi & Hw1 & Hw2 & Hd & Hp).
    exists pre, (v ++ [40%N] ++ i ++ [41%N] ++ w1 ++ [44%N] ++ w2 ++ [d]), post. split.
    + by rewrite <- !app_assoc.
    + apply matches_volume_issue_re. exists v, i, w1, w2, d. by split_and!.
Qed.

Lemma volume_issue_page_in_words (s : list N) :
  volume_issue_page s -> volume_issue_page_words s.
Proof.
  intros (pre & v & i & w1 & w2 & d & post & H). exists pre, v, i, w1, w2, d, post.
  tauto.
Qed.


(** ** The classifier *)

Lemma doi_indicator_spec (s : list N) :
  str_in (lit "doi.org") (lower s) || str_in (lit "doi:") (lower s) = true <->
  has_doi_indicator s.
Proof. unfold has_doi_indicator. by rewrite orb_true_iff, !str_in_spec. Qed.

Lemma institution_keyword_spec (s : list N) :
  existsb (fun kw => str_in kw (lower s)) institution_keywords = true <->
  has_institution_keyword s.
Proof.
  unfold has_institution_keyword. rewrite existsb_exists.
  split; intros (kw & Hin & H); exists kw; split; try done; by apply str_in_spec.
Qed.

Lemma report_marker_spec (s : list N) :
  existsb (fun m => str_in m (lower s)) report_markers = true <->
  has_report_marker s.
Proof.
  unfold has_report_marker. rewrite existsb_exists.
  split; intros (kw & Hin & H); exists kw; split; try done; by apply str_in_spec.
Qed.

Lemma volume_issue_decide (s : list N) :
  bool_decide (is_Some (re_search volume_issue_re s)) = true <-> volume_issue_page s.
Proof. by rewrite bool_decide_eq_true, volume_issue_search. Qed.

Lemma bool_true_iff_false (b : bool) (P : Prop) :
  (b = true <-> P) -> (b = false <-> ~ P).
Proof. destruct b; intuition congruence. Qed.

(** C4. A line with a DOI indicator ([doi.org] or [doi:] in the lowered
    line) is classified as a journal article, whatever else it contains. *)
Theorem detect_doi_is_journal (original after_year : list N) :
  has_doi_indicator original ->
  detect_reference_type original after_year = JOUR.
Proof.
  intros H%doi_indicator_spec. unfold detect_reference_type. by rewrite H.
Qed.

(** C5, as amended. Without a DOI indicator the classifier answers Journal
    exactly when the line has the volume(issue), page pattern starting at a
    word boundary: one or more digits not preceded by a letter, a digit or
    an underscore, an opening parenthesis, one or more digits, a closing
    parenthesis, optional whitespace, a comma, optional whitespace, a
    digit. *)
Theorem detect_journal_iff_volume_issue (original after_year : list N) :
  ~ has_doi_indicator original ->
  detect_reference_type original after_year = JOUR <-> volume_issue_page original.
Proof.
  intros Hdoi%(bool_true_iff_false _ _ (doi_indicator_spec original)).
  unfold detect_reference_type. rewrite Hdoi.
  rewrite <- volume_issue_decide.
  destruct (bool_decide (is_Some (re_search volume_issue_re original))); [done|].
  split; [|done].
  repeat (match goal with |- context [if ?b then _ else _] => destruct b end);
    intros H; discriminate H.
Qed.

(** C6. Without a DOI indicator and without the volume(issue) pattern: an
    institution keyword together with a report marker gives Report; an
    institution keyword in a line that does not contain [doi] gives Report;
    every other line is Electronic. *)
Theorem detect_report_or_electronic (original after_year : list N) :
  ~ has_doi_indicator original ->
  ~ volume_issue_page original ->
  (has_institution_keyword original -> has_report_marker original ->
   detect_reference_type original after_year = RPRT) /\
  (has_institution_keyword original -> ~ occurs_in (lit "doi") (lower original) ->
   detect_reference_type original after_year = RPRT) /\
  (~ (has_institution_keyword original /\ has_report_marker original) ->
   ~ (has_institution_keyword original /\ ~ occurs_in (lit "doi") (lower original)) ->
   detect_reference_type original after_year = ELEC).
Proof.
  intros Hdoi%(bool_true_iff_false _ _ (doi_indicator_spec original)).
  intros Hvol%(bool_true_iff_false _ _ (volume_issue_decide original)).
  unfold detect_reference_type. rewrite Hdoi, Hvol.
  split_and!.
  - intros Hk%institution_keyword_spec Hm%report_marker_spec. by rewrite Hk, Hm.
  - intros Hk%institution_keyword_spec Hd%str_in_false. rewrite Hk, Hd.
    by destruct (existsb _ report_markers).
  - rewrite <- institution_keyword_spec, <- report_marker_spec, <- str_in_false.
    intros H1 H2.
    destruct (existsb _ institution_keywords); [|done].
    destruct (existsb _ report_markers); [by destruct H1|].
    destruct (str_in (lit "doi") (lower original)); [done|by destruct H2].
Qed.

(** C10. The classifier never looks at its second argument. *)
Theorem detect_ignores_after_year (raw b b' : list N) :
  detect_reference_type raw b = detect_reference_type raw b'.
Proof. reflexivity. Qed.


(** ** The serializer *)

Lemma truthy_cons (v : option (list N)) :
  truthy v = true <-> exists c s, v = Some (c :: s).
Proof.
  destruct v as [[|c s]|]; simpl; split; try done; try (intros (? & ? & ?); done).
  intros _. by exists c, s.
Qed.

Lemma append_field_spec (record : gmap string (option (list N))) (k : string)
    (lines : list (list N)) :
  append_field record k lines = Ok (lines ++ field_line record k).
Proof.
  unfold append_field, field_line, dict_item, dict_get.
  destruct (record !! k) as [[[|c v]|]|] eqn:Hk; simpl; by rewrite ?app_nil_r.
Qed.

Lemma ris_lines_spec (record : gmap string (option (list N))) :
  ris_lines record =
  Ok ([lit "TY  - " ++ py_or (dict_get record "TY") (lit "GEN")] ++
      field_line record "AU" ++ field_line record "TI" ++
      field_line record "PY" ++ field_line record "UR" ++
      field_line record "N1" ++ [lit "ER  - "]).
Proof.
  unfold ris_lines.
  repeat (rewrite append_field_spec; cbn [mbind result_bind]).
  cbn [mret result_ret app]. by rewrite <- !app_assoc.
Qed.

Lemma py_or_nonempty (v : option (list N)) (s : list N) :
  s <> [] -> py_or v s <> [].
Proof. by destruct v as [[|c v]|]. Qed.

Lemma field_line_In (record : gmap string (option (list N))) (k : string) (l : list N) :
  In l (field_line record k) <->
  exists c v, dict_get record k = Some (c :: v) /\ l = lit k ++ lit "  - " ++ c :: v.
Proof.
  unfold field_line. destruct (dict_get record k) as [[|c v]|]; simpl.
  - split; [done | by intros (? & ? & ? & _)].
  - split.
    + intros [<-|[]]. by exists c, v.
    + intros (? & ? & [= <- <-] & ->). by left.
  - split; [done | by intros (? & ? & ? & _)].
Qed.

Lemma join_cons_cons (sep : list N) (p q : list N) (ps : list (list N)) :
  join sep (p :: q :: ps) = p ++ sep ++ join sep (q :: ps).
Proof. done. Qed.

Lemma join_app_cons (sep : list N) (ps : list (list N)) (q : list N) (qs : list (list N)) :
  join sep (ps ++ q :: qs) =
  concat (map (fun p => p ++ sep) ps) ++ join sep (q :: qs).
Proof.
  induction ps as [|p ps IH]; [done|].
  change ((p :: ps) ++ q :: qs) with (p :: (ps ++ q :: qs)).
  destruct ps as [|p' ps].
  - simpl. by rewrite app_nil_r, <- app_assoc.
  - change ((p' :: ps) ++ q :: qs) with (p' :: (ps ++ q :: qs)) in *.
    rewrite join_cons_cons, IH. simpl. by rewrite <- !app_assoc.
Qed.

Lemma field_text_line (record : gmap string (option (list N))) (k : string) :
  concat (map (fun p => p ++ [NL]) (field_line record k)) = field_text record k.
Proof.
  unfold field_line, field_text.
  destruct (dict_get record k) as [[|c v]|]; simpl; try done.
  by rewrite app_nil_r, <- !app_assoc.
Qed.

(** The text [record_to_ris] returns, for any dictionary. *)
Lemma record_to_ris_spec (record : gmap string (option (list N))) :
  record_to_ris record =
  Ok (lit "TY  - " ++ py_or (dict_get record "TY") (lit "GEN") ++ [NL] ++
      field_text record "AU" ++ field_text record "TI" ++
      field_text record "PY" ++ field_text record "UR" ++
      field_text record "N1" ++ lit "ER  - " ++ [NL; NL]).
Proof.
  unfold record_to_ris. rewrite ris_lines_spec.
  cbn [mbind result_bind mret result_ret]. f_equal.
  rewrite !app_assoc, join_app_cons.
  rewrite !map_app, !concat_app, !field_text_line.
  cbn [map concat join]. by rewrite app_nil_r, <- !app_assoc.
Qed.


Lemma lit_length (s : string) : length (lit s) = String.length s.
Proof.
  unfold lit. rewrite length_map. induction s as [|a s IH]; simpl; congruence.
Qed.

Lemma lit_inj (s s' : string) : lit s = lit s' -> s = s'.
Proof.
  revert s'. induction s as [|a s IH]; intros [|a' s'] H; try done.
  unfold lit in H. simpl in H. injection H as Ha Hs.
  apply (f_equal ascii_of_N) in Ha. rewrite !ascii_N_embedding in Ha.
  f_equal; [done | by apply IH].
Qed.

Lemma tagged_line_eq (k k' : string) (v v' : list N) :
  String.length k = String.length k' ->
  lit k ++ lit "  - " ++ v = lit k' ++ lit "  - " ++ v' <-> k = k' /\ v = v'.
Proof.
  intros Hlen. split; [|by intros [-> ->]].
  intros H. apply app_inj_1 in H as [Hk H]; [|by rewrite !lit_length].
  apply lit_inj in Hk. by apply app_inv_head in H.
Qed.

Lemma field_line_tagged (record : gmap string (option (list N))) (k k' : string)
    (v : list N) :
  String.length k = String.length k' ->
  In (lit k ++ lit "  - " ++ v) (field_line record k') <->
  k = k' /\ dict_get record k = Some v /\ v <> [].
Proof.
  intros Hlen. rewrite field_line_In. split.
  - intros (c & v' & Hget & [-> ->]%tagged_line_eq); by try done.
  - intros (-> & Hget & Hv). destruct v as [|c v]; [done|]. by exists c, v.
Qed.

(** The list of lines the serializer builds, for every dictionary: the TY
    line is always in it, with the record's type or GEN when the type is
    unset or empty; a line of one of the other tags is in it exactly when
    the field is present and not empty, and it carries the field's value; no
    line of a tag has an empty value. *)
Lemma ris_lines_presence (record : gmap string (option (list N))) :
  exists lines,
    ris_lines record = Ok lines /\
    record_to_ris record = Ok (join [NL] lines ++ [NL; NL]) /\
    (forall v, In (lit "TY" ++ lit "  - " ++ v) lines <->
               v = py_or (dict_get record "TY") (lit "GEN")) /\
    py_or (dict_get record "TY") (lit "GEN") <> [] /\
    (forall k, In k field_tags ->
       (emitted k lines <-> truthy (dict_get record k) = true) /\
       (forall v, In (lit k ++ lit "  - " ++ v) lines <->
                  dict_get record k = Some v /\ v <> [])) /\
    (forall k, In k ("TY"%string :: field_tags) -> ~ In (lit k ++ lit "  - ") lines).
Proof.
  eexists. split; [apply ris_lines_spec|].
  split; [unfold record_to_ris; by rewrite ris_lines_spec|].
  set (ty := py_or (dict_get record "TY") (lit "GEN")).
  assert (ty <> []) as Hty by (by apply py_or_nonempty).
  assert (forall k v, In k ("TY"%string :: field_tags) ->
            In (lit k ++ lit "  - " ++ v)
               ([lit "TY  - " ++ ty] ++ field_line record "AU" ++
                field_line record "TI" ++ field_line record "PY" ++
                field_line record "UR" ++ field_line record "N1" ++
                [lit "ER  - "]) <->
            (k = "TY"%string /\ v = ty) \/
            (k <> "TY"%string /\ dict_get record k = Some v /\ v <> [])) as Hin.
  { intros k v Hk.
    change (lit "TY  - " ++ ty) with (lit "TY" ++ lit "  - " ++ ty).
    change (lit "ER  - ") with (lit "ER" ++ lit "  - " ++ []).
    rewrite !in_app_iff. cbn [In].
    assert (String.length k = 2) as Hlen.
    { unfold field_tags in Hk. cbn [In] in Hk.
      destruct Hk as [<-|[<-|[<-|[<-|[<-|[<-|[]]]]]]]; reflexivity. }
    rewrite !field_line_tagged by done.
    rewrite !(tagged_line_eq _ k) by done.
    unfold field_tags in Hk. cbn [In] in Hk.
    destruct Hk as [<-|[<-|[<-|[<-|[<-|[<-|[]]]]]]]; intuition congruence. }
  split_and!.
  - intros v. rewrite (Hin "TY"%string v) by (by left). intuition congruence.
  - done.
  - intros k Hk.
    assert (k <> "TY"%string) as Hne.
    { unfold field_tags in Hk. cbn [In] in Hk.
      destruct Hk as [<-|[<-|[<-|[<-|[<-|[]]]]]]; done. }
    assert (forall v, In (lit k ++ lit "  - " ++ v)
              ([lit "TY  - " ++ ty] ++ field_line record "AU" ++
               field_line record "TI" ++ field_line record "PY" ++
               field_line record "UR" ++ field_line record "N1" ++
               [lit "ER  - "]) <-> dict_get record k = Some v /\ v <> []) as Hk'.
    { intros v. rewrite (Hin k v) by (by right). intuition congruence. }
    split; [|done]. unfold emitted. rewrite truthy_cons. split.
    + intros (v & [Hget Hv]%Hk'). destruct v as [|c v]; [done|]. by exists c, v.
    + intros (c & v & Hget). exists (c :: v). by apply Hk'.
  - intros k Hk. rewrite <- (app_nil_r (lit "  - ")).
    rewrite (Hin k []) by done. intros [[_ Hv]|(_ & _ & Hv)]; [|done].
    by rewrite <- Hv in Hty.
Qed.


(** ** The extractor *)

Lemma endswith_period (s : list N) :
  endswith (lit ".") s = true <-> last s = Some 46%N.
Proof.
  unfold endswith. rewrite <- head_reverse.
  change (reverse (lit ".")) with [46%N].
  destruct (reverse s) as [|c r]; cbn [startswith head]; [done|].
  rewrite andb_true_r, N.eqb_eq. split; congruence.
Qed.

Lemma slice_to_minus_one (s : list N) : slice_to s (-1) = removelast s.
Proof.
  rewrite removelast_firstn_len. unfold slice_to, slice_index. simpl.
  f_equal. lia.
Qed.

Lemma drop_period_unfold (s : list N) :
  drop_period s = if decide (last s = Some 46%N) then removelast s else s.
Proof.
  unfold drop_period. destruct (last s) as [c|]; [|done].
  destruct (decide (Some c = Some 46%N)) as [[= ->]|Hne]; [done|].
  destruct c as [|p]; [done|].
  repeat (match goal with
          | |- context [match ?q with xI _ => _ | xO _ => _ | xH => _ end] =>
              destruct q
          end); done.
Qed.

Lemma author_text_code (pre : list N) :
  (if endswith (lit ".") (strip pre)
   then strip (slice_to (strip pre) (-1)) else strip pre) = author_text pre.
Proof.
  unfold author_text. rewrite drop_period_unfold.
  destruct (endswith (lit ".") (strip pre)) eqn:He.
  - apply endswith_period in He. rewrite decide_True by done.
    by rewrite slice_to_minus_one.
  - rewrite decide_False, strip_idem; [done|].
    intros H%endswith_period. congruence.
Qed.

Lemma truthy_str_comma (s : list N) : truthy_str (s ++ lit ",") = true.
Proof. by destruct s. Qed.

Lemma group_found (r : regex) (s : list N) (m : match_obj) (n : nat) :
  re_search r s = Some m -> has_group n r = true ->
  exists v, group m n = Ok v.
Proof.
  intros [Hre _]%re_search_pattern Hg. unfold group. rewrite Hre, Hg. by eexists.
Qed.

Lemma initial_record_lookup (original : list N) :
  initial_record original !! "TY"%string = Some (Some GEN) /\
  initial_record original !! "AU"%string = Some None /\
  initial_record original !! "PY"%string = Some None /\
  initial_record original !! "TI"%string = Some None /\
  initial_record original !! "UR"%string = Some None /\
  initial_record original !! "N1"%string = Some (Some original).
Proof.
  unfold initial_record.
  split_and!; repeat (rewrite lookup_insert_ne by done); by rewrite lookup_insert_eq.
Qed.

(** A line in which no year is found: the initial record is returned. *)
Lemma parse_no_year (line : list N) :
  strip line <> [] -> re_search year_re (strip line) = None ->
  parse_apa_reference line = Ok (initial_record (strip line)).
Proof.
  intros Hne Hs. unfold parse_apa_reference. rewrite Hs.
  by destruct (strip line).
Qed.

(** A line in which a year is found: no step raises, and the fields of the
    record are as follows. *)
Lemma parse_with_year (line : list N) (m : match_obj) :
  strip line <> [] -> re_search year_re (strip line) = Some m ->
  exists record year after_year,
    parse_apa_reference line = Ok record /\
    group m 1 = Ok year /\
    record !! "PY"%string = Some year /\
    record !! "AU"%string =
      Some (Some (author_text (take (m_start m) (strip line)) ++ lit ",")) /\
    record !! "TY"%string =
      Some (Some (detect_reference_type (strip line) after_year)) /\
    record !! "N1"%string = Some (Some (strip line)).
Proof.
  intros Hne Hs. unfold parse_apa_reference. rewrite Hs.
  destruct (strip line) as [|c0 original'] eqn:Horig; [done|].
  cbn [truthy_str negb]. rewrite <- Horig in *.
  destruct (group_found _ _ _ 1 Hs) as [year Hyear]; [done|]. rewrite Hyear.
  cbn [mbind result_bind]. cbv zeta.
  unfold start. rewrite slice_to_of_nat, author_text_code, truthy_str_comma.
  match goal with |- context [detect_reference_type _ ?a] => set (after_year := a) end.
  match goal with |- context [if ?b then (?x, ?y) else (?x', ?y')] =>
    set (title := if b then (x, y) else (x', y')) end.
  destruct title as [title remainder].
  destruct (re_search url_re (strip line)) as [url_match|] eqn:Hurl.
  - destruct (group_found _ _ _ 1 Hurl) as [url Hg]; [done|]. rewrite Hg.
    cbn [mbind result_bind mret result_ret]. unfold initial_record.
    eexists _, year, after_year. split; [reflexivity|]. split; [done|].
    split_and!; repeat (rewrite lookup_insert_ne by done); by rewrite lookup_insert_eq.
  - cbn [mret result_ret]. unfold initial_record.
    eexists _, year, after_year. split; [reflexivity|]. split; [done|].
    split_and!; repeat (rewrite lookup_insert_ne by done); by rewrite lookup_insert_eq.
Qed.

Lemma detect_codes (original after_year : list N) :
  In (detect_reference_type original after_year) [JOUR; RPRT; ELEC].
Proof.
  unfold detect_reference_type.
  repeat (match goal with |- context [if ?b then _ else _] => destruct b end);
    cbn [In]; tauto.
Qed.

(** What every Parsed Record holds: the trimmed line as [N1] and one of the
    four type codes as [TY]. *)
Lemma parse_shape (line : list N) :
  strip line <> [] ->
  exists record ty,
    parse_apa_reference line = Ok record /\
    record !! "N1"%string = Some (Some (strip line)) /\
    record !! "TY"%string = Some (Some ty) /\
    In ty [GEN; JOUR; RPRT; ELEC].
Proof.
  intros Hne. destruct (re_search year_re (strip line)) as [m|] eqn:Hs.
  - destruct (parse_with_year line m Hne Hs)
      as (record & year & after & Hp & _ & _ & _ & Hty & Hn1).
    exists record, (detect_reference_type (strip line) after).
    split_and!; [done..|]. right. apply detect_codes.
  - exists (initial_record (strip line)), GEN.
    destruct (initial_record_lookup (strip line)) as (? & _ & _ & _ & _ & ?).
    split_and!; [by apply parse_no_year|done|done|by left].
Qed.

Lemma has_year_strip (line : list N) : has_year (strip line) -> has_year line.
Proof.
  intros (pre & y & post & Hs & Hlen & Hd).
  destruct (strip_split line) as (a & b & Hline & _).
  exists (a ++ pre), y, (post ++ b). split; [|done].
  rewrite Hline at 1. rewrite Hs. by rewrite <- !app_assoc.
Qed.


Lemma dict_get_lookup (record : gmap string (option (list N))) (k : string)
    (v : option (list N)) :
  record !! k = Some v -> dict_get record k = v.
Proof. unfold dict_get. by intros ->. Qed.

(** C3. A line that is not empty once trimmed and holds no parenthesized
    4-digit year gives a record of type GEN whose [N1] is the trimmed line
    and whose authors, year, title and URL are unset, whatever else the line
    contains. *)
Theorem parse_without_year (line : list N) :
  strip line <> [] -> ~ has_year line ->
  exists record,
    parse_apa_reference line = Ok record /\
    dict_get record "TY" = Some GEN /\
    dict_get record "N1" = Some (strip line) /\
    dict_get record "AU" = None /\
    dict_get record "PY" = None /\
    dict_get record "TI" = None /\
    dict_get record "UR" = None.
Proof.
  intros Hne Hno.
  assert (re_search year_re (strip line) = None) as Hs.
  { apply no_year_search. intros H. by apply Hno, has_year_strip. }
  exists (initial_record (strip line)).
  destruct (initial_record_lookup (strip line)) as (Hty & Hau & Hpy & Hti & Hur & Hn1).
  split; [by apply parse_no_year|].
  split_and!; by apply dict_get_lookup.
Qed.

(** The authors field of every line with a year, also when the text before
    the year is empty. *)
Lemma parse_authors_field (line pre : list N) :
  first_year_at pre (strip line) ->
  exists record,
    parse_apa_reference line = Ok record /\
    dict_get record "AU" = Some (author_text pre ++ lit ",").
Proof.
  intros Hfirst.
  destruct (first_year_search pre (strip line) Hfirst) as (m & Hs & Hst & _).
  destruct Hfirst as [(y & post & Horig & _) _].
  assert (strip line <> []) as Hne.
  { rewrite Horig. by destruct pre. }
  destruct (parse_with_year line m Hne Hs)
    as (record & year & after & Hp & _ & _ & Hau & _).
  exists record. split; [done|].
  apply dict_get_lookup. rewrite Hau, Hst.
  rewrite Horig at 1. by rewrite take_app_length.
Qed.

(** C2, as amended. For a line with a year, take the text before the first
    parenthesized year, trim it, strip one trailing period and trim again:
    when what is left is not empty, the authors field is that text followed
    by a comma. *)
Theorem parse_authors (line pre : list N) :
  first_year_at pre (strip line) ->
  author_text pre <> [] ->
  exists record,
    parse_apa_reference line = Ok record /\
    dict_get record "AU" = Some (author_text pre ++ lit ",").
Proof. intros Hfirst _. by apply parse_authors_field. Qed.

Lemma field_text_None (record : gmap string (option (list N))) (k : string) :
  dict_get record k = None -> field_text record k = [].
Proof. unfold field_text. by intros ->. Qed.

Lemma field_text_Some (record : gmap string (option (list N))) (k : string)
    (v : list N) :
  dict_get record k = Some v -> v <> [] ->
  field_text record k = lit k ++ lit "  - " ++ v ++ [NL].
Proof. unfold field_text. intros -> Hv. by destruct v. Qed.

Lemma code_nonempty (ty : list N) : In ty [GEN; JOUR; RPRT; ELEC] -> ty <> [].
Proof. cbn [In]. intros [<-|[<-|[<-|[<-|[]]]]]; done. Qed.

(** C8. The text the serializer returns for a Parsed Record (the record of
    a line that is not empty once trimmed): the lines TY, AU, TI, PY, UR and
    N1 in this order, each the tag, two spaces, a dash, a space and the
    value, the optional ones only when the field is present and not empty;
    the N1 line always, with the trimmed line; then the line [ER  - ] and an
    empty line. *)
Theorem record_to_ris_layout (line : list N) (record : gmap string (option (list N))) :
  strip line <> [] ->
  parse_apa_reference line = Ok record ->
  exists ty,
    dict_get record "TY" = Some ty /\
    In ty [GEN; JOUR; RPRT; ELEC] /\
    record_to_ris record =
    Ok (lit "TY" ++ lit "  - " ++ ty ++ [NL] ++
        field_text record "AU" ++ field_text record "TI" ++
        field_text record "PY" ++ field_text record "UR" ++
        lit "N1" ++ lit "  - " ++ strip line ++ [NL] ++
        lit "ER  - " ++ [NL] ++ [NL]).
Proof.
  intros Hne Hp.
  destruct (parse_shape line Hne) as (record' & ty & Hp' & Hn1 & Hty & Hcode).
  assert (record' = record) as -> by congruence.
  apply dict_get_lookup in Hn1, Hty.
  exists ty. split_and!; [done|done|].
  rewrite record_to_ris_spec, Hty, (field_text_Some record "N1" _ Hn1 Hne).
  assert (py_or (Some ty) (lit "GEN") = ty) as ->.
  { apply code_nonempty in Hcode. by destruct ty. }
  by rewrite <- !app_assoc.
Qed.


(** ** The batch driver *)

Lemma record_to_ris_total (record : gmap string (option (list N))) :
  exists entry, record_to_ris record = Ok entry /\ entry <> [].
Proof. eexists. split; [apply record_to_ris_spec | done]. Qed.

Lemma record_to_ris_initial (original : list N) :
  original <> [] ->
  record_to_ris (initial_record original) = Ok (generic_block original).
Proof.
  intros Hne.
  destruct (initial_record_lookup original) as (Hty & Hau & Hpy & Hti & Hur & Hn1).
  apply dict_get_lookup in Hty, Hau, Hpy, Hti, Hur, Hn1.
  rewrite record_to_ris_spec, Hty.
  rewrite !field_text_None by done.
  rewrite (field_text_Some _ "N1" original) by done.
  unfold generic_block. f_equal. by rewrite <- !app_assoc.
Qed.

(** What one line that is not blank adds to the entries. *)
Lemma convert_line (line : list N) (lines entries : list (list N)) :
  strip line <> [] ->
  exists entry,
    entry <> [] /\
    convert_lines (line :: lines) entries = convert_lines lines (entries ++ [entry]) /\
    (~ has_year line -> entry = generic_block (strip line)).
Proof.
  intros Hne. cbn [convert_lines].
  destruct (strip line) as [|c0 l0] eqn:Horig; [done|]. cbn [truthy_str negb].
  rewrite <- Horig in *.
  assert (strip (strip line) <> []) as Hne' by (by rewrite strip_idem).
  destruct (parse_shape (strip line) Hne') as (record & ty & Hp & Hn1 & _).
  rewrite Hp. cbn [mbind result_bind].
  rewrite bool_decide_eq_false_2.
  2:{ intros ->. by rewrite lookup_empty in Hn1. }
  destruct (record_to_ris_total record) as (entry & He & Hnonempty).
  exists entry. rewrite He. cbn [mbind result_bind]. split_and!; [done|done|].
  intros Hno.
  assert (re_search year_re (strip (strip line)) = None) as Hs.
  { apply no_year_search. intros H. by apply Hno, has_year_strip, has_year_strip. }
  rewrite (parse_no_year _ Hne' Hs) in Hp. injection Hp as <-.
  rewrite strip_idem, record_to_ris_initial in He by done. congruence.
Qed.

Lemma convert_blank_line (line : list N) (lines entries : list (list N)) :
  strip line = [] ->
  convert_lines (line :: lines) entries = convert_lines lines entries.
Proof. intros H. cbn [convert_lines]. by rewrite H. Qed.

(** The loop never raises; it adds one entry, not empty, per line that is
    not blank, and for a line without a year that entry is the generic
    block. *)
Lemma convert_lines_spec (lines : list (list N)) :
  forall entries, exists added,
    convert_lines lines entries = Ok (entries ++ added) /\
    Forall (fun e => e <> []) added /\
    (added = [] <-> Forall blank lines) /\
    (Forall (fun l => ~ has_year l) lines ->
     concat added = concat (map generic_entry lines)).
Proof.
  induction lines as [|line lines IH]; intros entries.
  - exists []. rewrite app_nil_r. split_and!; [done|done|done|done].
  - destruct (strip line) as [|c0 l0] eqn:Hline.
    + destruct (IH entries) as (added & Hc & Hne & Hblank & Hgen).
      exists added. rewrite convert_blank_line by done.
      split_and!; [done|done| |].
      * rewrite Hblank. split; [by constructor|]. by inversion 1.
      * intros Hno. inversion Hno; subst. cbn [map concat].
        unfold generic_entry at 1. rewrite Hline. by apply Hgen.
    + assert (strip line <> []) as Hne by (by rewrite Hline).
      destruct (convert_line line lines entries Hne) as (entry & Hentry & Hc & Hg).
      destruct (IH (entries ++ [entry])) as (added & Hc' & Hne' & _ & Hgen).
      exists (entry :: added). rewrite Hc, Hc', <- app_assoc.
      split_and!; [done|by constructor| |].
      * split; [done|]. inversion 1; subst. unfold blank in *. congruence.
      * intros Hno. inversion Hno; subst. cbn [map concat].
        rewrite Hgen by done. f_equal. rewrite Hg by done.
        unfold generic_entry. by rewrite Hline.
Qed.

Lemma concat_nil_nonempty (l : list (list N)) :
  Forall (fun e => e <> []) l -> concat l = [] <-> l = [].
Proof.
  intros H. split; [|by intros ->].
  destruct H as [|e l He _]; [done|]. cbn [concat]. by destruct e.
Qed.

(** C9. [references_text_to_ris] returns a string for every input: none of
    the operations that can raise does.  The string is empty exactly when
    every line of the input is blank; in particular it is empty for the
    empty input. *)
Theorem references_text_to_ris_total (text : list N) :
  (exists out,
     references_text_to_ris text = Ok out /\
     (out = [] <-> Forall blank (splitlines text))) /\
  references_text_to_ris [] = Ok [].
Proof.
  split; [|done]. unfold references_text_to_ris.
  destruct (convert_lines_spec (splitlines text) []) as (added & Hc & Hne & Hblank & _).
  exists (concat added). rewrite Hc. split; [done|].
  by rewrite concat_nil_nonempty.
Qed.

(** C1, as amended. When no line of the input holds a parenthesized 4-digit
    year, the result is, for each line that is not blank and in the order of
    the input, the block [TY  - GEN], [N1  - ] with the trimmed line,
    [ER  - ] and an empty line; it is the empty string only when every line
    is blank. *)
Theorem references_without_year (text : list N) :
  Forall (fun l => ~ has_year l) (splitlines text) ->
  references_text_to_ris text = Ok (concat (map generic_entry (splitlines text))) /\
  (concat (map generic_entry (splitlines text)) = [] <-> Forall blank (splitlines text)).
Proof.
  intros Hno. unfold references_text_to_ris.
  destruct (convert_lines_spec (splitlines text) []) as (added & Hc & Hne & Hblank & Hgen).
  rewrite Hc. cbn [mbind result_bind mret result_ret app].
  rewrite <- Hgen by done. split; [done|].
  by rewrite concat_nil_nonempty.
Qed.


(** ** Deciding the notions on a given line by running the matcher *)

Lemma first_year_at_by_search (pre s : list N) (m : match_obj) :
  re_search year_re s = Some m -> take (m_start m) s = pre ->
  first_year_at pre s.
Proof.
  intros Hs Hpre.
  destruct (year_search_first s m Hs) as (pre0 & y & post & Horig & _ & _ & Hf & Hst & _).
  rewrite Hst, Horig, take_app_length in Hpre. by subst.
Qed.

Lemma parsed_field_Ok (line : list N) (k : string) (v : option (list N)) :
  parsed_field line k = Ok v ->
  exists record, parse_apa_reference line = Ok record /\ dict_get record k = v.
Proof.
  unfold parsed_field. destruct (parse_apa_reference line) as [record|e]; [|done].
  intros [= <-]. by exists record.
Qed.

Lemma no_doi_indicator_spec (s : list N) :
  str_in (lit "doi.org") (lower s) || str_in (lit "doi:") (lower s) = false <->
  ~ has_doi_indicator s.
Proof. apply bool_true_iff_false, doi_indicator_spec. Qed.

Lemma no_volume_issue_spec (s : list N) :
  re_search volume_issue_re s = None <-> ~ volume_issue_page s.
Proof.
  rewrite <- volume_issue_search. destruct (re_search volume_issue_re s).
  - split; [done|]. intros H. destruct H. by eexists.
  - split; [|done]. by intros _ [? ?].
Qed.

Lemma no_institution_keyword_spec (s : list N) :
  existsb (fun kw => str_in kw (lower s)) institution_keywords = false <->
  ~ has_institution_keyword s.
Proof. apply bool_true_iff_false, institution_keyword_spec. Qed.


(** ** More on trimming *)

Lemma lstrip_nil_iff (s : list N) : lstrip s = [] <-> spaces s.
Proof.
  unfold spaces. induction s as [|c s IH]; simpl.
  - split; [constructor | done].
  - destruct (isspace c) eqn:Hc.
    + rewrite IH. split; [by constructor | by inversion 1].
    + split; [done | inversion 1; congruence].
Qed.

Lemma strip_nil_iff (s : list N) : strip s = [] <-> spaces s.
Proof.
  split.
  - intros H. destruct (strip_split s) as (a & b & Hs & Ha & Hb).
    rewrite H in Hs. rewrite Hs. unfold spaces in *. by apply Forall_app.
  - intros H%lstrip_nil_iff. unfold strip. by rewrite H.
Qed.

Lemma lstrip_spaces_app (a s : list N) : spaces a -> lstrip (a ++ s) = lstrip s.
Proof.
  induction 1 as [|c a Hc _ IH]; [done|]. simpl. by rewrite Hc.
Qed.

Lemma lstrip_app_spaces (s b : list N) :
  spaces b -> lstrip (s ++ b) = match lstrip s with [] => [] | _ => lstrip s ++ b end.
Proof.
  intros Hb. induction s as [|c s IH]; simpl.
  - by apply lstrip_nil_iff.
  - by destruct (isspace c).
Qed.

Lemma rstrip_app_spaces (s b : list N) : spaces b -> rstrip (s ++ b) = rstrip s.
Proof.
  intros Hb. unfold rstrip. rewrite reverse_app, lstrip_spaces_app; [done|].
  unfold spaces. by apply Forall_reverse.
Qed.

(** Whitespace around a text does not change what trimming leaves. *)
Lemma strip_padded (a s b : list N) :
  spaces a -> spaces b -> strip (a ++ s ++ b) = strip s.
Proof.
  intros Ha Hb. unfold strip.
  rewrite lstrip_spaces_app, lstrip_app_spaces by done.
  destruct (lstrip s) as [|c r] eqn:Hs; [done|].
  by rewrite rstrip_app_spaces.
Qed.

Lemma strip_has_nonspace (s : list N) (x : N) :
  In x s -> isspace x = false -> strip s <> [].
Proof.
  intros Hin Hx H%strip_nil_iff. unfold spaces in H.
  rewrite Forall_forall in H. apply list_elem_of_In in Hin.
  specialize (H x Hin). congruence.
Qed.

(** X1. Whitespace before and after a line does not change its record. *)
Theorem parse_ignores_padding (a line b : list N) :
  spaces a -> spaces b ->
  parse_apa_reference (a ++ line ++ b) = parse_apa_reference line.
Proof.
  intros Ha Hb. unfold parse_apa_reference. by rewrite strip_padded.
Qed.


(** ** More on the extractor *)

(** The record of a line that is not blank, as the initial record with its
    five derived fields overwritten. *)
Lemma parse_record_form (line : list N) :
  strip line <> [] ->
  exists ty au py ti ur,
    parse_apa_reference line =
    Ok (<["UR"%string := ur]> (<["TY"%string := Some ty]> (<["TI"%string := ti]>
       (<["AU"%string := au]> (<["PY"%string := py]>
          (initial_record (strip line))))))).
Proof.
  intros Hne. destruct (re_search year_re (strip line)) as [m|] eqn:Hs.
  - unfold parse_apa_reference. rewrite Hs.
    destruct (strip line) as [|c0 original'] eqn:Horig; [done|].
    cbn [truthy_str negb]. rewrite <- Horig in *.
    destruct (group_found _ _ _ 1 Hs) as [year Hyear]; [done|]. rewrite Hyear.
    cbn [mbind result_bind]. cbv zeta.
    match goal with |- context [if ?b then (?x, ?y) else (?x', ?y')] =>
      set (title := if b then (x, y) else (x', y')) end.
    destruct title as [title remainder].
    destruct (re_search url_re (strip line)) as [url_match|] eqn:Hurl.
    + destruct (group_found _ _ _ 1 Hurl) as [url Hg]; [done|]. rewrite Hg.
      cbn [mbind result_bind mret result_ret]. by eexists _, _, _, _, _.
    + cbn [mret result_ret]. eexists _, _, _, _, None.
      match goal with
      | |- mret ?R = _ =>
          change (mret R) with (Ok R);
          rewrite <- (insert_id R "UR"%string None); [reflexivity|]
      end.
      unfold initial_record.
      repeat (rewrite lookup_insert_ne by done). by rewrite lookup_insert_eq.
  - rewrite (parse_no_year line Hne Hs).
    exists GEN, None, None, None, None. reflexivity.
Qed.

(** X2. The extractor returns the empty dictionary for a blank line and for
    no other; the record of every other line has the six keys TY, AU, PY, TI,
    UR and N1 and no other key. *)
Theorem parse_keys (line : list N) :
  exists record,
    parse_apa_reference line = Ok record /\
    (record = ∅ <-> strip line = []) /\
    (strip line <> [] ->
     forall k, is_Some (record !! k) <->
               In k ["TY"; "AU"; "PY"; "TI"; "UR"; "N1"]%string).
Proof.
  destruct (strip line) as [|c0 l0] eqn:Hline.
  - exists ∅. unfold parse_apa_reference. rewrite Hline. by split_and!.
  - assert (strip line <> []) as Hne by (by rewrite Hline).
    destruct (parse_record_form line Hne) as (ty & au & py & ti & ur & Hp).
    rewrite Hline in Hp. eexists. split; [exact Hp|]. split.
    + split; [|done]. intros H. by apply insert_non_empty in H.
    + intros _ k. rewrite <- elem_of_dom. unfold initial_record.
      rewrite !dom_insert_L, dom_empty_L. cbn [In].
      rewrite !elem_of_union, !elem_of_singleton, elem_of_empty.
      intuition congruence.
Qed.

Lemma GEN_not_detected (original after_year : list N) :
  detect_reference_type original after_year <> GEN.
Proof.
  pose proof (detect_codes original after_year) as H. cbn [In] in H.
  destruct H as [<-|[<-|[<-|[]]]]; done.
Qed.

(** X3. The type of the record of a line that is not blank: GEN when the line
    has no parenthesized year, and otherwise what the classifier answers for
    the trimmed line, which is never GEN. *)
Theorem parse_type (line : list N) :
  strip line <> [] ->
  exists record ty,
    parse_apa_reference line = Ok record /\
    dict_get record "TY" = Some ty /\
    (~ has_year (strip line) -> ty = GEN) /\
    (has_year (strip line) ->
     ty = detect_reference_type (strip line) [] /\ ty <> GEN).
Proof.
  intros Hne. destruct (re_search year_re (strip line)) as [m|] eqn:Hs.
  - destruct (parse_with_year line m Hne Hs)
      as (record & year & after & Hp & _ & _ & _ & Hty & _).
    exists record, (detect_reference_type (strip line) after).
    split_and!; [done|by apply dict_get_lookup| |].
    + intros Hno%no_year_search. congruence.
    + intros _. split; [done|apply GEN_not_detected].
  - exists (initial_record (strip line)), GEN.
    destruct (initial_record_lookup (strip line)) as (Hty & _).
    split_and!; [by apply parse_no_year|by apply dict_get_lookup|done|].
    intros [m Hm]%has_year_search. congruence.
Qed.

(** ** More on the serializer *)

Lemma field_text_py_or (record : gmap string (option (list N))) (k : string) :
  field_text record k =
  match py_or (dict_get record k) [] with
  | [] => []
  | v => lit k ++ lit "  - " ++ v ++ [NL]
  end.
Proof. unfold field_text, py_or. by destruct (dict_get record k) as [[|c v]|]. Qed.

Lemma py_or_default (v : option (list N)) (s : list N) :
  py_or v s = match py_or v [] with [] => s | w => w end.
Proof. by destruct v as [[|c v]|]. Qed.

(** The text depends on the record only through the values of the six keys,
    a value that is [None] or empty counting as a missing key. *)
Lemma record_to_ris_ext (r1 r2 : gmap string (option (list N))) :
  (forall k, In k ris_keys -> py_or (dict_get r1 k) [] = py_or (dict_get r2 k) []) ->
  record_to_ris r1 = record_to_ris r2.
Proof.
  intros H. rewrite !record_to_ris_spec, !field_text_py_or.
  rewrite (py_or_default (dict_get r1 "TY")), (py_or_default (dict_get r2 "TY")).
  unfold ris_keys in H. cbn [In] in H.
  rewrite (H "TY"%string), (H "AU"%string), (H "TI"%string), (H "PY"%string),
    (H "UR"%string), (H "N1"%string) by tauto.
  done.
Qed.


(** X10. The keys the serializer does not read do not matter: setting or
    deleting one leaves the text unchanged. *)
Theorem record_to_ris_other_keys (record : gmap string (option (list N)))
    (k : string) (v : option (list N)) :
  ~ In k ris_keys ->
  record_to_ris (<[k := v]> record) = record_to_ris record /\
  record_to_ris (delete k record) = record_to_ris record.
Proof.
  intros Hk. split; apply record_to_ris_ext; intros k' Hk'; unfold dict_get.
  - rewrite lookup_insert_ne; [done|]. by intros ->.
  - rewrite lookup_delete_ne; [done|]. by intros ->.
Qed.

(** X11. For every key, a value that is [None] or the empty string gives the
    same text as a missing key. *)
Theorem record_to_ris_falsy (record : gmap string (option (list N))) (k : string) :
  record_to_ris (<[k := None]> record) = record_to_ris (delete k record) /\
  record_to_ris (<[k := Some []]> record) = record_to_ris (delete k record).
Proof.
  split; apply record_to_ris_ext; intros k' _; unfold dict_get.
  - destruct (decide (k = k')) as [->|Hne].
    + by rewrite lookup_insert_eq, lookup_delete_eq.
    + by rewrite lookup_insert_ne, lookup_delete_ne.
  - destruct (decide (k = k')) as [->|Hne].
    + by rewrite lookup_insert_eq, lookup_delete_eq.
    + by rewrite lookup_insert_ne, lookup_delete_ne.
Qed.

(** ** More on the batch driver *)

Lemma islinebreak_NL : islinebreak NL = true.
Proof. reflexivity. Qed.

Lemma splitlines_nil_iff (s : list N) : splitlines s = [] <-> s = [].
Proof.
  split; [|by intros ->]. destruct s as [|c s]; [done|]. simpl.
  destruct (islinebreak c); [done|]. by destruct (splitlines s).
Qed.

Lemma splitlines_cons_plain (c : N) (s : list N) :
  islinebreak c = false ->
  splitlines (c :: s) =
  match splitlines s with
  | [] => [[c]]
  | l :: ls => (c :: l) :: ls
  end.
Proof. intros H. simpl. by rewrite H. Qed.

Lemma splitlines_cons_break (c : N) (s : list N) :
  islinebreak c = true ->
  splitlines (c :: s) =
  [] :: match s with
        | c' :: s'' =>
            if (c =? CR)%N && (c' =? LF)%N then splitlines s'' else splitlines s
        | [] => []
        end.
Proof. intros H. cbn [splitlines]. by rewrite H. Qed.

(** No line holds a line break. *)
Lemma splitlines_plain (s : list N) :
  Forall (Forall (fun c => islinebreak c = false)) (splitlines s).
Proof.
  induction s as [s IH] using (induction_ltof1 _ (@length N)). unfold ltof in IH.
  destruct s as [|c s]; [constructor|].
  destruct (islinebreak c) eqn:Hc.
  - rewrite splitlines_cons_break by done. constructor; [constructor|].
    destruct s as [|c' s'']; [constructor|].
    destruct ((c =? CR)%N && (c' =? LF)%N); apply IH; simpl; lia.
  - rewrite splitlines_cons_plain by done.
    assert (Forall (Forall (fun c => islinebreak c = false)) (splitlines s)) as H.
    { apply IH. simpl. lia. }
    destruct (splitlines s) as [|l ls]; [by repeat constructor|].
    inversion H; subst. constructor; [by constructor|done].
Qed.

(** A text without line breaks is its own single line. *)
Lemma splitlines_single (l : list N) :
  l <> [] -> Forall (fun c => islinebreak c = false) l -> splitlines l = [l].
Proof.
  induction l as [|c l IH]; [done|]. intros _ H. inversion H as [|? ? Hc Hl]; subst.
  rewrite splitlines_cons_plain by done.
  destruct l as [|c' l']; [done|]. by rewrite IH.
Qed.

(** Every character of a text is a line break or stands in one of its
    lines. *)
Lemma splitlines_chars (s : list N) (x : N) :
  In x s -> islinebreak x = true \/ exists l, In l (splitlines s) /\ In x l.
Proof.
  induction s as [s IH] using (induction_ltof1 _ (@length N)). unfold ltof in IH.
  destruct s as [|c s]; [done|]. intros [->|Hin].
  - destruct (islinebreak x) eqn:Hx; [by left|right].
    rewrite splitlines_cons_plain by done.
    destruct (splitlines s) as [|l ls]; eexists; (split; [by left|by left]).
  - destruct (islinebreak c) eqn:Hc.
    + rewrite splitlines_cons_break by done.
      destruct s as [|c' s'']; [done|].
      destruct ((c =? CR)%N && (c' =? LF)%N) eqn:Hcrlf.
      * destruct Hin as [->|Hin].
        { left. apply andb_true_iff in Hcrlf as [_ ->%N.eqb_eq]. apply islinebreak_NL. }
        destruct (IH s'') as [?|(l & Hl & Hx)]; [simpl; lia|done|by left|].
        right. exists l. split; [by right|done].
      * destruct (IH (c' :: s'')) as [?|(l & Hl & Hx)]; [simpl; lia|done|by left|].
        right. exists l. split; [by right|done].
    + rewrite splitlines_cons_plain by done.
      destruct (IH s) as [?|(l & Hl & Hx)]; [simpl; lia|done|by left|].
      right. destruct (splitlines s) as [|l0 ls]; [done|].
      destruct Hl as [->|Hl].
      * exists (c :: l). split; [by left|by right].
      * exists l. split; [by right|done].
Qed.

(** The lines of two texts joined by a newline: those of the first, then
    perhaps an empty line, then those of the second. *)
Lemma splitlines_joined (a b : list N) :
  exists gap, Forall (fun l => l = []) gap /\
    splitlines (a ++ [NL] ++ b) = splitlines a ++ gap ++ splitlines b.
Proof.
  induction a as [a IH] using (induction_ltof1 _ (@length N)). unfold ltof in IH.
  destruct a as [|c a].
  - exists [[]]. split; [by repeat constructor|].
    cbn [app]. rewrite splitlines_cons_break by apply islinebreak_NL.
    by destruct b.
  - cbn [app]. destruct (islinebreak c) eqn:Hc.
    + rewrite !splitlines_cons_break by done.
      destruct a as [|c' a''].
      * cbn [app]. destruct ((c =? CR)%N && (NL =? LF)%N) eqn:Hcr.
        { exists []. by split. }
        exists [[]]. split; [by repeat constructor|].
        rewrite splitlines_cons_break by apply islinebreak_NL. by destruct b.
      * cbn [app]. destruct ((c =? CR)%N && (c' =? LF)%N).
        { destruct (IH a'') as (gap & Hgap & Heq); [simpl; lia|].
          cbn [app] in Heq. rewrite Heq. by exists gap. }
        destruct (IH (c' :: a'')) as (gap & Hgap & Heq); [simpl; lia|].
        cbn [app] in Heq. rewrite Heq. by exists gap.
    + rewrite !splitlines_cons_plain by done.
      destruct a as [|c' a''].
      * cbn [app]. rewrite splitlines_cons_break by apply islinebreak_NL.
        exists []. split; [done|]. by destruct b.
      * destruct (IH (c' :: a'')) as (gap & Hgap & Heq); [simpl; lia|].
        cbn [app] in Heq. cbn [app]. rewrite Heq.
        destruct (splitlines (c' :: a'')) as [|l ls] eqn:Hl.
        { by apply splitlines_nil_iff in Hl. }
        by exists gap.
Qed.

(** The entries the loop adds do not depend on those collected before. *)
Lemma convert_lines_acc (lines entries : list (list N)) :
  convert_lines lines entries =
  added ← convert_lines lines []; mret (entries ++ added).
Proof.
  revert entries. induction lines as [|line lines IH]; intros entries.
  - cbn. by rewrite app_nil_r.
  - cbn [convert_lines].
    destruct (negb (truthy_str (strip line))); [apply IH|].
    destruct (parse_apa_reference (strip line)) as [record|e];
      cbn [mbind result_bind]; [|done].
    destruct (bool_decide (record = ∅)); [apply IH|].
    destruct (record_to_ris record) as [entry|e]; cbn [mbind result_bind]; [|done].
    rewrite (IH (entries ++ [entry])), (IH ([] ++ [entry])).
    destruct (convert_lines lines []) as [added|e]; cbn; [|done].
    by rewrite <- app_assoc.
Qed.

Lemma convert_lines_app (lines1 lines2 : list (list N)) :
  convert_lines (lines1 ++ lines2) [] =
  added1 ← convert_lines lines1 [];
  added2 ← convert_lines lines2 [];
  mret (added1 ++ added2).
Proof.
  induction lines1 as [|line lines1 IH].
  - cbn. by destruct (convert_lines lines2 []).
  - cbn [app convert_lines].
    destruct (negb (truthy_str (strip line))); [apply IH|].
    destruct (parse_apa_reference (strip line)) as [record|e];
      cbn [mbind result_bind]; [|done].
    destruct (bool_decide (record = ∅)); [apply IH|].
    destruct (record_to_ris record) as [entry|e]; cbn [mbind result_bind]; [|done].
    rewrite (convert_lines_acc (lines1 ++ lines2)), (convert_lines_acc lines1), IH.
    destruct (convert_lines lines1 []) as [added1|e]; cbn; [|done].
    by destruct (convert_lines lines2 []) as [added2|e].
Qed.

Lemma convert_lines_blank (gap : list (list N)) :
  Forall (fun l => l = []) gap -> convert_lines gap [] = Ok [].
Proof.
  induction 1 as [|l gap -> _ IH]; [done|]. by rewrite convert_blank_line.
Qed.

(** X12. The result for two texts joined by a newline is the result for the
    first followed by the result for the second. *)
Theorem references_joined (a b : list N) :
  exists out_a out_b,
    references_text_to_ris a = Ok out_a /\
    references_text_to_ris b = Ok out_b /\
    references_text_to_ris (a ++ [NL] ++ b) = Ok (out_a ++ out_b).
Proof.
  destruct (convert_lines_spec (splitlines a) []) as (ea & Ha & _).
  destruct (convert_lines_spec (splitlines b) []) as (eb & Hb & _).
  destruct (splitlines_joined a b) as (gap & Hgap & Hsplit).
  exists (concat ea), (concat eb). unfold references_text_to_ris.
  rewrite Hsplit, !convert_lines_app, Ha, Hb, (convert_lines_blank gap Hgap).
  cbn. by rewrite concat_app.
Qed.

(** X13. Each line is converted on its own: the result for a text is the
    concatenation, in order, of the results for its lines. *)
Theorem references_line_by_line (text : list N) :
  exists outs,
    Forall2 (fun line out => references_text_to_ris line = Ok out)
            (splitlines text) outs /\
    references_text_to_ris text = Ok (concat outs).
Proof.
  unfold references_text_to_ris at 2.
  pose proof (splitlines_plain text) as Hplain.
  induction (splitlines text) as [|line lines IH].
  - by exists [].
  - inversion Hplain as [|? ? Hline Hlines]; subst.
    destruct (IH Hlines) as (outs & Hall & Hout).
    destruct (convert_lines_spec lines []) as (added & Hadded & _).
    rewrite Hadded in Hout. cbn in Hout. injection Hout as Hout.
    destruct (convert_lines_spec [line] []) as (one & Hone & _).
    exists (concat one :: outs). split.
    + constructor; [|done]. unfold references_text_to_ris.
      destruct line as [|c l]; [by injection Hone as <-|].
      rewrite splitlines_single by done. by rewrite Hone.
    + change (line :: lines) with ([line] ++ lines).
      rewrite convert_lines_app, Hone, Hadded. cbn.
      by rewrite concat_app, Hout.
Qed.


(** ** The page *)

Lemma record_to_ris_head (record : gmap string (option (list N))) (entry : list N) :
  record_to_ris record = Ok entry -> head entry = Some 84%N.
Proof. rewrite record_to_ris_spec. by intros [= <-]. Qed.

(** Every entry the loop adds starts with the letter T of its TY line. *)
Lemma convert_lines_heads (lines added : list (list N)) :
  convert_lines lines [] = Ok added ->
  Forall (fun e => head e = Some 84%N) added.
Proof.
  revert added. induction lines as [|line lines IH]; intros added.
  - intros [= <-]. constructor.
  - cbn [convert_lines].
    destruct (negb (truthy_str (strip line))); [apply IH|].
    destruct (parse_apa_reference (strip line)) as [record|e];
      cbn [mbind result_bind]; [|done].
    destruct (bool_decide (record = ∅)); [apply IH|].
    destruct (record_to_ris record) as [entry|e] eqn:He;
      cbn [mbind result_bind]; [|done].
    rewrite convert_lines_acc.
    destruct (convert_lines lines []) as [added'|e]; [|done].
    intros [= <-]. constructor; [by apply record_to_ris_head in He|by apply IH].
Qed.

Lemma not_spaces_witness (s : list N) :
  ~ spaces s -> exists x, In x s /\ isspace x = false.
Proof.
  unfold spaces. induction s as [|c s IH]; intros H.
  - destruct H. constructor.
  - destruct (isspace c) eqn:Hc.
    + destruct IH as (x & Hin & Hx).
      * intros Hs. apply H. by constructor.
      * exists x. split; [by right|done].
    + exists c. split; [by left|done].
Qed.

(** A text that is not blank has a line that is not blank, when every line
    break counts as whitespace. *)
Lemma nonblank_text_line (text : list N) :
  (forall c, islinebreak c = true -> isspace c = true) ->
  strip text <> [] -> ~ Forall blank (splitlines text).
Proof.
  intros Hlb Hne Hall.
  destruct (not_spaces_witness text) as (x & Hin & Hx).
  { intros H%strip_nil_iff. done. }
  destruct (splitlines_chars text x Hin) as [Hbr|(l & Hl & Hxl)].
  - apply Hlb in Hbr. congruence.
  - rewrite Forall_forall in Hall. apply list_elem_of_In in Hl.
    specialize (Hall l Hl). by apply (strip_has_nonspace l x Hxl Hx).
Qed.



(** ** Runs of the matcher: what the groups record, and greediness *)

Section Runs.

Context {A : Type}.

Implicit Types (c : cursor) (g : gmap nat (nat * nat)).
Implicit Types (k : cursor -> gmap nat (nat * nat) -> option A).

Lemma rmatch_seq_eq (r1 r2 : regex) c g k :
  rmatch r1 c g (fun c' g' => rmatch r2 c' g' k) = rmatch (r1 +> r2) c g k.
Proof. done. Qed.

Lemma rmatch_group_eq (n : nat) (r : regex) c g k :
  rmatch r c g (fun c' g' => k c' (<[n := (pos c, pos c')]> g')) =
  rmatch (Group n r) c g k.
Proof. done. Qed.

Lemma star_loop_keeps (r : regex) body k :
  (forall c g k a, body c g k = Some a ->
     exists s t, rest c = s ++ t /\ matches r (prev c) s t /\
                 k (advance c s t) g = Some a) ->
  forall fuel c g a, star_loop body k fuel c g = Some a ->
    exists s t, rest c = s ++ t /\ matches (Star r) (prev c) s t /\
                k (advance c s t) g = Some a.
Proof.
  intros Hbody. induction fuel as [|fuel IH]; intros c g a H; simpl in H.
  - exists [], (rest c). rewrite advance_nil. split_and!; [done|constructor|done].
  - destruct (body c g _) as [a'|] eqn:Hb.
    + injection H as ->.
      apply Hbody in Hb as (s1 & t1 & Hrest & Hm & Hk).
      destruct (Nat.ltb_spec (pos c) (pos (advance c s1 t1))) as [Hlt|]; [|done].
      apply IH in Hk as (s2 & t & Hrest2 & Hm2 & Hk).
      simpl in Hrest2, Hm2. subst t1.
      exists (s1 ++ s2), t. rewrite <- advance_app, <- app_assoc.
      split_and!; [done| |done].
      constructor; [|done..]. intros ->. simpl in Hlt. lia.
    + exists [], (rest c). rewrite advance_nil.
      split_and!; [done|constructor|done].
Qed.

Lemma step_keeps (P : N -> bool) (r : regex) c g k a :
  (forall x p t, P x = true -> matches r p [x] t) ->
  (c' ← step P c; k c' g) = Some a ->
  exists s t, rest c = s ++ t /\ matches r (prev c) s t /\
              k (advance c s t) g = Some a.
Proof.
  intros Hr H. destruct (step P c) as [c'|] eqn:Hs; [|done].
  apply step_spec in Hs as (x & t & Hrest & HP & ->).
  exists [x], t. eauto.
Qed.

End Runs.

(** A run over a pattern without groups hands the continuation the spans it
    was given. *)
Lemma rmatch_keeps (r : regex) :
  group_free r = true ->
  forall (A : Type) (c : cursor) (g : gmap nat (nat * nat))
         (k : cursor -> gmap nat (nat * nat) -> option A) (a : A),
    rmatch r c g k = Some a ->
    exists s t, rest c = s ++ t /\ matches r (prev c) s t /\
                k (advance c s t) g = Some a.
Proof.
  induction r as [|x| | | | |r1 IH1 r2 IH2|r IH|r IH|n r IH]; simpl; intros Hgf A c g k a H.
  - exists [], (rest c). rewrite advance_nil. split_and!; [done|constructor|done].
  - apply (step_keeps (N.eqb x)); [|done]. intros x' p t ->%N.eqb_eq. constructor.
  - apply (step_keeps isdecimal); [|done]. by constructor.
  - apply (step_keeps isspace); [|done]. by constructor.
  - apply (step_keeps (fun x => negb (isspace x))); [|done].
    intros x p t ?%negb_true_iff. by constructor.
  - destruct (at_boundary c) eqn:Hb; [|done].
    exists [], (rest c). rewrite advance_nil.
    split_and!; [done|by constructor|done].
  - apply andb_true_iff in Hgf as [Hg1 Hg2].
    apply (IH1 Hg1) in H as (s1 & t1 & Hrest & Hm1 & H).
    apply (IH2 Hg2) in H as (s2 & t & Hrest2 & Hm2 & H).
    simpl in Hrest2, Hm2. subst t1. rewrite advance_app in H.
    exists (s1 ++ s2), t. rewrite <- app_assoc.
    split_and!; [done|by constructor|done].
  - destruct (rmatch r c g k) as [a'|] eqn:Hr.
    + injection H as ->. apply (IH Hgf) in Hr as (s & t & ? & ? & ?).
      exists s, t. split_and!; [done|by constructor|done].
    + exists [], (rest c). rewrite advance_nil.
      split_and!; [done|apply M_Opt_none|done].
  - exact (star_loop_keeps r _ k (fun c g k a => IH Hgf A c g k a)
             (S (length (rest c))) c g a H).
  - done.
Qed.

Lemma matches_word (w : list N) (p : option N) (s t : list N) :
  matches (Word w) p s t <-> s = w.
Proof.
  revert p s. induction w as [|x w IH]; intros p s; simpl.
  - apply matches_eps.
  - rewrite matches_seq. split.
    + intros (s1 & s2 & -> & ->%matches_chr & ->%IH). done.
    + intros ->. exists [x], w. split_and!; [done|constructor|by apply IH].
Qed.

Lemma group_free_word (w : list N) : group_free (Word w) = true.
Proof. induction w as [|x w IH]; [done|exact IH]. Qed.

Lemma matches_repeat_digit (n : nat) (p : option N) (s t : list N) :
  matches (Repeat n Digit) p s t -> length s = n /\ digits s.
Proof.
  revert p s. induction n as [|n IH]; intros p s; simpl.
  - intros ->%matches_eps. split; [done|constructor].
  - intros (s1 & s2 & -> & (x & -> & Hx)%matches_digit & [<- Hd]%IH)%matches_seq.
    split; [done|by constructor].
Qed.

Lemma group_free_repeat (n : nat) (r : regex) :
  group_free r = true -> group_free (Repeat n r) = true.
Proof. intros Hr. induction n as [|n IH]; [done|]. simpl. by rewrite Hr. Qed.

(** A run of the year pattern records the span of the four digits. *)
Lemma year_run {A : Type} (c : cursor) (g : gmap nat (nat * nat))
    (k : cursor -> gmap nat (nat * nat) -> option A) (a : A) :
  rmatch year_re c g k = Some a ->
  exists y t,
    rest c = [40%N] ++ y ++ [41%N] ++ t /\ length y = 4 /\
    k (advance c ([40%N] ++ y ++ [41%N]) t) (<[1 := (S (pos c), 5 + pos c)]> g) = Some a.
Proof.
  unfold year_re. intros H. rewrite <- rmatch_seq_eq in H.
  apply rmatch_keeps in H as (s1 & t1 & Hr1 & ->%matches_chr & H); [|done].
  cbv beta in H. rewrite <- rmatch_seq_eq, <- rmatch_group_eq in H.
  apply rmatch_keeps in H as (y & t2 & Hr2 & [Hlen _]%matches_repeat_digit & H); [|done].
  cbv beta in H.
  apply rmatch_keeps in H as (s3 & t & Hr3 & ->%matches_chr & H); [|done].
  simpl in Hr2, Hr3. subst t1 t2.
  exists y, t. split_and!; [done|done|].
  rewrite !advance_app in H. cbn [pos advance length] in H.
  rewrite length_app, Hlen in H.
  replace ([40%N] ++ y ++ [41%N]) with (([40%N] ++ y) ++ [41%N])
    by (by rewrite <- app_assoc).
  rewrite <- advance_app. exact H.
Qed.



Lemma advance_advance (c : cursor) (s1 t1 s2 t : list N) :
  advance (advance c s1 t1) s2 t = advance c (s1 ++ s2) t.
Proof.
  unfold advance; simpl. rewrite last_of_app, length_app. f_equal. lia.
Qed.

Lemma star_loop_total {A : Type} body
    (k : cursor -> gmap nat (nat * nat) -> option A) (fuel : nat)
    (c : cursor) (g : gmap nat (nat * nat)) :
  (forall c g, is_Some (k c g)) -> is_Some (star_loop body k fuel c g).
Proof.
  intros Hk. destruct fuel as [|fuel]; simpl; [apply Hk|].
  destruct (body c g _); [by eexists|apply Hk].
Qed.

(** [\S*] before a continuation that accepts every position takes the
    longest run without whitespace. *)
Lemma star_nonspace_greedy {A : Type}
    (k : cursor -> gmap nat (nat * nat) -> option A) :
  (forall c g, is_Some (k c g)) ->
  forall fuel c g a,
    length (rest c) < fuel ->
    star_loop (rmatch NonSpace) k fuel c g = Some a ->
    exists w t, rest c = w ++ t /\
      Forall (fun x => isspace x = false) w /\
      from_option isspace true (head t) = true /\
      k (advance c w t) g = Some a.
Proof.
  intros Hk. induction fuel as [|fuel IH]; intros c g a Hlen H; [lia|].
  cbn [star_loop rmatch] in H.
  destruct (step (fun x => negb (isspace x)) c) as [c1|] eqn:Hs.
  - apply step_spec in Hs as (x & t1 & Hrest & HP%negb_true_iff & ->).
    cbn [mbind option_bind] in H.
    replace (pos c <? pos (advance c [x] t1)) with true in H
      by (symmetry; apply Nat.ltb_lt; simpl; lia).
    destruct (star_loop_total (rmatch NonSpace) k fuel (advance c [x] t1) g Hk)
      as [a' Ha'].
    change (match star_loop (rmatch NonSpace) k fuel (advance c [x] t1) g with
            | Some a => Some a
            | None => k c g
            end = Some a) in H.
    rewrite Ha' in H. injection H as ->.
    apply IH in Ha' as (w & t & Hr & Hw & Ht & Hk').
    + simpl in Hr. subst t1. exists (x :: w), t.
      split_and!; [done|by constructor|done|].
      by rewrite (advance_app c [x] w t) in Hk'.
    + rewrite Hrest in Hlen. simpl in *. lia.
  - cbn [mbind option_bind] in H.
    exists [], (rest c). rewrite advance_nil. split_and!; [done|constructor| |done].
    unfold step in Hs. destruct (rest c) as [|x t]; [done|]. simpl.
    by destruct (isspace x).
Qed.

Lemma plus_nonspace_greedy {A : Type}
    (k : cursor -> gmap nat (nat * nat) -> option A)
    (c : cursor) (g : gmap nat (nat * nat)) (a : A) :
  (forall c g, is_Some (k c g)) ->
  rmatch (Plus NonSpace) c g k = Some a ->
  exists w t, rest c = w ++ t /\ w <> [] /\
    Forall (fun x => isspace x = false) w /\
    from_option isspace true (head t) = true /\
    k (advance c w t) g = Some a.
Proof.
  intros Hk H. unfold Plus in H. cbn [rmatch] in H.
  destruct (step (fun x => negb (isspace x)) c) as [c1|] eqn:Hs; [|done].
  apply step_spec in Hs as (x & t1 & Hrest & HP%negb_true_iff & ->).
  cbn [mbind option_bind] in H.
  apply (star_nonspace_greedy k Hk) in H as (w & t & Hr & Hw & Ht & Hk');
    [|simpl; lia].
  simpl in Hr. subst t1. exists (x :: w), t.
  split_and!; [done|done|by constructor|done|].
  by rewrite (advance_app c [x] w t) in Hk'.
Qed.

(** A run of the URL pattern before a continuation that accepts every
    position: the scheme, then the longest run without whitespace, recorded
    as group 1. *)
Lemma url_run {A : Type} (c : cursor) (g : gmap nat (nat * nat))
    (k : cursor -> gmap nat (nat * nat) -> option A) (a : A) :
  (forall c g, is_Some (k c g)) ->
  rmatch url_re c g k = Some a ->
  exists scheme w t,
    rest c = scheme ++ w ++ t /\
    (scheme = lit "http://" \/ scheme = lit "https://") /\
    w <> [] /\ Forall (fun x => isspace x = false) w /\
    from_option isspace true (head t) = true /\
    k (advance c (scheme ++ w) t)
      (<[1 := (pos c, length (scheme ++ w) + pos c)]> g) = Some a.
Proof.
  intros Hk H. unfold url_re in H. rewrite <- rmatch_group_eq in H.
  set (k1 := fun c' g' => k c' (<[1 := (pos c, pos c')]> g')) in H.
  assert (forall c g, is_Some (k1 c g)) as Hk1 by (intros ? ?; apply Hk).
  assert (forall c0 a0,
    rmatch (Word (lit "://") +> Plus NonSpace) c0 g k1 = Some a0 ->
    exists w t, rest c0 = lit "://" ++ w ++ t /\ w <> [] /\
      Forall (fun x => isspace x = false) w /\
      from_option isspace true (head t) = true /\
      k1 (advance c0 (lit "://" ++ w) t) g = Some a0) as Htail.
  { intros c0 a0 H0. rewrite <- rmatch_seq_eq in H0.
    apply rmatch_keeps in H0 as (s & t1 & Hr & ->%matches_word & H0);
      [|apply group_free_word].
    cbv beta in H0.
    apply (plus_nonspace_greedy k1 _ _ _ Hk1) in H0 as (w & t & Hr2 & ? & ? & ? & H0).
    simpl in Hr2. subst t1. rewrite advance_app in H0. by exists w, t. }
  rewrite <- rmatch_seq_eq in H.
  apply rmatch_keeps in H as (s & t1 & Hr & ->%matches_word & H);
    [|apply group_free_word].
  cbv beta in H. rewrite <- rmatch_seq_eq in H. cbn [rmatch] in H.
  match type of H with
  | match ?e with Some _ => _ | None => _ end = _ => destruct e as [a'|] eqn:He
  end.
  - injection H as ->.
    destruct (step (N.eqb 115) (advance c (lit "http") t1)) as [c2|] eqn:Hs; [|done].
    apply step_spec in Hs as (x & t2 & Hr2 & Hx%N.eqb_eq & ->). subst x.
    cbn [mbind option_bind] in He. rewrite rmatch_seq_eq in He.
    apply Htail in He as (w & t & Hr3 & Hne & Hw & Ht & He).
    cbn [rest advance] in Hr2, Hr3.
    exists (lit "https://"), w, t. split_and!; [|by right|done|done|done|].
    + rewrite Hr, Hr2, Hr3. reflexivity.
    + rewrite !advance_advance in He. exact He.
  - apply Htail in H as (w & t & Hr3 & Hne & Hw & Ht & H).
    cbn [rest advance] in Hr3.
    exists (lit "http://"), w, t. split_and!; [|by left|done|done|done|].
    + rewrite Hr, Hr3. reflexivity.
    + rewrite !advance_advance in H. exact H.
Qed.

(** What [scan] returns comes from a run of the matcher at the leftmost
    position where the pattern matches. *)
Lemma scan_run (r : regex) (subject : list N) (s : list N) :
  forall p i m, scan r subject p i s = Some m ->
    exists pre tl c',
      s = pre ++ tl /\
      m_start m = length pre + i /\
      m_end m = pos c' /\
      rmatch r (Cursor (last_of p pre) (length pre + i) tl) ∅
        (fun c g => Some (c, g)) = Some (c', m_groups m) /\
      (forall pre' mid' post', s = pre' ++ mid' ++ post' ->
         matches r (last_of p pre') mid' post' -> length pre <= length pre').
Proof.
  induction s as [|x s IH]; intros p i m H; simpl in H.
  - destruct (rmatch r _ _ _) as [[c g]|] eqn:Hr; [|done]. injection H as <-.
    exists [], [], c. simpl. split_and!; auto with lia.
  - destruct (rmatch r _ _ _) as [[c g]|] eqn:Hr.
    + injection H as <-.
      exists [], (x :: s), c. simpl. split_and!; auto with lia.
    + apply IH in H as (pre & tl & c' & Hs & Hst & Hen & Hrun & Hfirst).
      exists (x :: pre), tl, c'. rewrite last_of_cons. simpl.
      replace (S (length pre + i)) with (length pre + S i) by lia.
      split_and!; [by rewrite Hs|lia|done|done|].
      intros [|y pre'] mid' post' Hs' Hm'.
      * exfalso. exact (rmatch_top_None r p i (x :: s) mid' post' Hr Hs' Hm').
      * simpl in Hs'. injection Hs' as <- Hs'. rewrite last_of_cons in Hm'.
        specialize (Hfirst pre' mid' post' Hs' Hm'). simpl. lia.
Qed.

(** Group 1 of a match of the year pattern: the four characters after the
    opening parenthesis. *)
Lemma year_group (s : list N) (m : match_obj) :
  re_search year_re s = Some m ->
  group m 1 = Ok (Some (take 4 (drop (S (m_start m)) s))).
Proof.
  intros H. destruct (re_search_pattern _ _ _ H) as [Hre Hstr].
  apply scan_run in H as (pre & tl & c' & Hs & Hst & Hen & Hrun & _).
  apply year_run in Hrun as (y & t & _ & _ & [= _ Hg]).
  unfold group. rewrite Hre, Hstr, <- Hg.
  change (has_group 1 year_re) with true. cbv iota.
  rewrite lookup_insert_eq. cbn [pos]. rewrite <- Hst.
  do 3 f_equal. lia.
Qed.



(** ** The URL pattern, searched *)

Lemma nonspace_prefix_app (u t : list N) :
  Forall (fun x => isspace x = false) u ->
  from_option isspace true (head t) = true ->
  nonspace_prefix (u ++ t) = u.
Proof.
  intros Hu Ht. induction Hu as [|x u Hx _ IH]; simpl.
  - destruct t as [|c t]; [done|]. simpl in *. by rewrite Ht.
  - by rewrite Hx, IH.
Qed.

Lemma scheme_nonspace (scheme : list N) :
  scheme = lit "http://" \/ scheme = lit "https://" ->
  Forall (fun x => isspace x = false) scheme.
Proof. intros [-> | ->]; repeat constructor. Qed.

Lemma matches_nonspace (p : option N) (s t : list N) :
  matches NonSpace p s t <-> exists x, s = [x] /\ negb (isspace x) = true.
Proof.
  split.
  - intros H. inversion H; subst. eexists. split; [done|]. by apply negb_true_iff.
  - intros (x & -> & ?%negb_true_iff). by constructor.
Qed.

Lemma matches_url_re (p : option N) (scheme w post : list N) :
  scheme = lit "http://" \/ scheme = lit "https://" ->
  w <> [] -> Forall (fun x => isspace x = false) w ->
  matches url_re p (scheme ++ w) post.
Proof.
  intros Hs Hne Hw. unfold url_re. apply matches_group.
  assert (forall p', matches (Word (lit "://") +> Plus NonSpace) p' (lit "://" ++ w) post)
    as Htail.
  { intros p'. apply matches_seq. exists (lit "://"), w.
    split_and!; [done|by apply matches_word|].
    apply (matches_plus_class NonSpace (fun x => negb (isspace x)) matches_nonspace).
    split; [done|]. eapply Forall_impl; [exact Hw|]. by intros x ->. }
  apply matches_seq. destruct Hs as [-> | ->].
  - exists (lit "http"), (lit "://" ++ w).
    split_and!; [done|by apply matches_word|].
    apply matches_seq. exists [], (lit "://" ++ w).
    split_and!; [done|apply M_Opt_none|apply Htail].
  - exists (lit "http"), ([115%N] ++ lit "://" ++ w).
    split_and!; [done|by apply matches_word|].
    apply matches_seq. exists [115%N], (lit "://" ++ w).
    split_and!; [done|apply M_Opt_some; constructor|apply Htail].
Qed.

Lemma url_at_search (before s : list N) :
  url_at before s -> is_Some (re_search url_re s).
Proof.
  intros (scheme & x & after & -> & Hsc & Hx).
  apply re_search_is_Some. exists before, (scheme ++ [x]), after.
  split; [by rewrite <- !app_assoc|].
  apply matches_url_re; [done|done|by constructor].
Qed.

(** The match [re.search] finds for the URL pattern: it starts at the first
    URL of the text, and its group 1 is the scheme and the longest run
    without whitespace after it. *)
Lemma url_search (s : list N) (m : match_obj) :
  re_search url_re s = Some m ->
  exists before scheme w t,
    s = before ++ scheme ++ w ++ t /\
    (scheme = lit "http://" \/ scheme = lit "https://") /\
    w <> [] /\ Forall (fun x => isspace x = false) w /\
    from_option isspace true (head t) = true /\
    first_url_at before s /\
    m_start m = length before /\
    group m 1 = Ok (Some (scheme ++ w)).
Proof.
  intros H. destruct (re_search_pattern _ _ _ H) as [Hre Hstr].
  apply scan_run in H as (pre & tl & c' & Hs & Hst & Hen & Hrun & Hfirst).
  apply url_run in Hrun as (scheme & w & t & Hrest & Hsc & Hne & Hw & Ht & [= _ Hg]);
    [|by eexists].
  cbn [rest] in Hrest. subst tl.
  exists pre, scheme, w, t. split_and!; [done..| |lia|].
  - split.
    + destruct w as [|x w]; [done|]. inversion Hw; subst.
      by exists scheme, x, (w ++ t).
    + intros before' (scheme' & x' & after' & Hs' & Hsc' & Hx').
      apply (Hfirst before' (scheme' ++ [x']) after').
      * rewrite Hs'. by rewrite <- !app_assoc.
      * apply matches_url_re; [done|done|by constructor].
  - unfold group. rewrite Hre, Hstr, <- Hg.
    change (has_group 1 url_re) with true. cbv iota.
    rewrite lookup_insert_eq. cbn [pos].
    replace (length (scheme ++ w) + (length pre + 0) - (length pre + 0))
      with (length (scheme ++ w)) by lia.
    replace (length pre + 0) with (length pre) by lia.
    rewrite Hs, drop_app_length, (app_assoc scheme w t), take_app_length. done.
Qed.

(** ** The title, as the code computes it *)

Lemma find_from_period (s : list N) (i : Z) :
  (find_from (lit ".") s i = (-1)%Z /\ before_period s = s) \/
  (exists n, find_from (lit ".") s i = (i + Z.of_nat n)%Z /\ before_period s = take n s).
Proof.
  change (lit ".") with [46%N]. revert i.
  induction s as [|c s IH]; intros i; cbn [find_from startswith before_period].
  - by left.
  - rewrite andb_true_r, (N.eqb_sym 46 c). destruct (c =? 46)%N.
    + right. exists 0. split; [lia|done].
    + destruct (IH (i + 1)%Z) as [[Hf Hb] | (n & Hf & Hb)].
      * left. by rewrite Hf, Hb.
      * right. exists (S n). rewrite Hf, Hb. split; [lia|done].
Qed.

Lemma title_pair_code (after_year : list N) :
  exists remainder,
    (if negb (find after_year (lit ".") =? -1)%Z
     then (strip (slice_to after_year (find after_year (lit "."))),
           strip (slice_from after_year (find after_year (lit ".") + 1)))
     else (strip after_year, [])) =
    (strip (before_period after_year), remainder).
Proof.
  unfold find.
  destruct (find_from_period after_year 0) as [[Hf Hb] | (n & Hf & Hb)]; rewrite Hf.
  - change (negb (-1 =? -1)%Z) with false. cbv iota. rewrite Hb. by eexists.
  - rewrite Z.add_0_l. destruct (Z.eqb_spec (Z.of_nat n) (-1)) as [|_]; [lia|].
    cbn [negb]. rewrite slice_to_of_nat, Hb. by eexists.
Qed.

Lemma after_year_code (s : list N) :
  (if startswith (lit ".") (lstrip s) then lstrip (slice_from (lstrip s) 1)
   else lstrip s) = lstrip (skip_period (lstrip s)).
Proof.
  change (lit ".") with [46%N]. destruct (lstrip s) as [|c r] eqn:E; [done|].
  cbn [startswith skip_period]. rewrite andb_true_r, (N.eqb_sym 46 c).
  destruct (c =? 46)%N.
  - change 1%Z with (Z.of_nat 1). by rewrite slice_from_of_nat.
  - by rewrite <- E, lstrip_idem.
Qed.

Lemma before_period_no_period (s : list N) : ~ In 46%N (before_period s).
Proof.
  induction s as [|c s IH]; simpl; [tauto|].
  destruct (N.eqb_spec c 46); simpl; [tauto|]. intros [?|?]; [done|tauto].
Qed.

Lemma before_period_prefix (s : list N) : exists b, s = before_period s ++ b.
Proof.
  induction s as [|c s [b Hb]]; simpl; [by exists []|].
  destruct (c =? 46)%N; [by eexists|]. exists b. by rewrite Hb at 1.
Qed.

Lemma lstrip_suffix (s : list N) : exists a, s = a ++ lstrip s.
Proof. destruct (lstrip_split s) as (a & Ha & _). by exists a. Qed.

Lemma skip_period_suffix (s : list N) : exists a, s = a ++ skip_period s.
Proof.
  destruct s as [|c s]; simpl; [by exists []|].
  destruct (c =? 46)%N; [by exists [c] | by exists []].
Qed.

(** The title text is trimmed, has no period, and stands in the text it is
    taken from. *)
Lemma title_text_spec (post : list N) :
  strip (title_text post) = title_text post /\
  ~ In 46%N (title_text post) /\
  occurs_in (title_text post) post.
Proof.
  unfold title_text. split_and!.
  - apply strip_idem.
  - intros Hin. apply (before_period_no_period (lstrip (skip_period (lstrip post)))).
    destruct (strip_split (before_period (lstrip (skip_period (lstrip post)))))
      as (a & b & Hs & _).
    rewrite Hs. rewrite !in_app_iff. tauto.
  - destruct (lstrip_suffix post) as [a1 H1].
    destruct (skip_period_suffix (lstrip post)) as [a2 H2].
    destruct (lstrip_suffix (skip_period (lstrip post))) as [a3 H3].
    destruct (before_period_prefix (lstrip (skip_period (lstrip post)))) as [b4 H4].
    destruct (strip_split (before_period (lstrip (skip_period (lstrip post)))))
      as (a5 & b5 & H5 & _).
    set (T := strip (before_period (lstrip (skip_period (lstrip post))))) in *.
    exists (a1 ++ a2 ++ a3 ++ a5), (b5 ++ b4).
    rewrite H1 at 1. rewrite H2 at 1. rewrite H3 at 1. rewrite H4 at 1.
    rewrite H5 at 1. by rewrite <- !app_assoc.
Qed.

(** A line in which a year is found: year, title and URL of the record. *)
Lemma parse_fields (line : list N) (m : match_obj) :
  strip line <> [] -> re_search year_re (strip line) = Some m ->
  exists record,
    parse_apa_reference line = Ok record /\
    dict_get record "PY" = Some (take 4 (drop (S (m_start m)) (strip line))) /\
    dict_get record "TI" =
      (if truthy_str (title_text (drop (m_end m) (strip line)))
       then Some (title_text (drop (m_end m) (strip line))) else None) /\
    match re_search url_re (strip line) with
    | Some url_match => exists url, group url_match 1 = Ok url /\
                                    dict_get record "UR" = url
    | None => dict_get record "UR" = None
    end.
Proof.
  intros Hne Hs. unfold parse_apa_reference. rewrite Hs.
  destruct (strip line) as [|c0 original'] eqn:Horig; [done|].
  cbn [truthy_str negb]. rewrite <- Horig in *.
  rewrite (year_group _ _ Hs).
  cbn [mbind result_bind]. cbv zeta.
  unfold start, end_.
  rewrite slice_to_of_nat, slice_from_of_nat, author_text_code, truthy_str_comma.
  rewrite after_year_code.
  destruct (title_pair_code (lstrip (skip_period (lstrip (drop (m_end m) (strip line))))))
    as [remainder Hpair].
  rewrite Hpair. fold (title_text (drop (m_end m) (strip line))).
  destruct (re_search url_re (strip line)) as [url_match|] eqn:Hurl.
  - destruct (group_found _ _ _ 1 Hurl) as [url Hg]; [done|]. rewrite Hg.
    cbn [mbind result_bind mret result_ret]. unfold initial_record.
    eexists. split; [reflexivity|]. unfold dict_get.
    split_and!; [| |exists url; split; [done|]];
      repeat (rewrite lookup_insert_ne by done); by rewrite lookup_insert_eq.
  - cbn [mret result_ret]. unfold initial_record.
    eexists. split; [reflexivity|]. unfold dict_get.
    split_and!; repeat (rewrite lookup_insert_ne by done); by rewrite lookup_insert_eq.
Qed.



Lemma first_url_at_by_search (before s : list N) (m : match_obj) :
  re_search url_re s = Some m -> take (m_start m) s = before ->
  first_url_at before s.
Proof.
  intros Hs Hb.
  destruct (url_search s m Hs)
    as (b0 & scheme & w & t & Horig & _ & _ & _ & _ & Hf & Hst & _).
  rewrite Hst, Horig, take_app_length in Hb. by subst.
Qed.

Lemma first_url_at_length (b1 b2 s : list N) :
  first_url_at b1 s -> first_url_at b2 s -> length b1 = length b2.
Proof.
  intros [H1 F1] [H2 F2]. specialize (F1 b2 H2). specialize (F2 b1 H1). lia.
Qed.

Lemma year_digits_at (pre y post : list N) :
  length y = 4 ->
  take 4 (drop (S (length pre)) (pre ++ [40%N] ++ y ++ [41%N] ++ post)) = y.
Proof.
  intros Hlen. rewrite (app_assoc pre [40%N]).
  rewrite drop_app_length' by (rewrite length_app; simpl; lia).
  by rewrite take_app_length' by done.
Qed.

Lemma after_year_at (pre y post : list N) :
  length y = 4 ->
  drop (length pre + 6) (pre ++ [40%N] ++ y ++ [41%N] ++ post) = post.
Proof.
  intros Hlen.
  replace (pre ++ [40%N] ++ y ++ [41%N] ++ post)
    with ((pre ++ [40%N] ++ y ++ [41%N]) ++ post) by (by rewrite <- !app_assoc).
  apply drop_app_length'. rewrite !length_app, Hlen. simpl. lia.
Qed.

(** X5. The year field of a line with a year is the four digits of the first
    parenthesized year. *)
Theorem parse_year (line pre y post : list N) :
  first_year_at pre (strip line) ->
  strip line = pre ++ [40%N] ++ y ++ [41%N] ++ post -> length y = 4 ->
  exists record,
    parse_apa_reference line = Ok record /\
    dict_get record "PY" = Some y.
Proof.
  intros Hfirst Horig Hlen.
  destruct (first_year_search pre (strip line) Hfirst) as (m & Hs & Hst & _).
  assert (strip line <> []) as Hne by (rewrite Horig; by destruct pre).
  destruct (parse_fields line m Hne Hs) as (record & Hp & Hpy & _).
  exists record. split; [done|].
  by rewrite Hpy, Hst, Horig, year_digits_at.
Qed.

(** X6. The title of a line with a year, [post] being the text after the
    first parenthesized year: skip whitespace, one period and whitespace
    again, take the text up to the next period and trim it; the field is
    unset when nothing is left. *)
Theorem parse_title (line pre y post : list N) :
  first_year_at pre (strip line) ->
  strip line = pre ++ [40%N] ++ y ++ [41%N] ++ post -> length y = 4 ->
  exists record,
    parse_apa_reference line = Ok record /\
    dict_get record "TI" =
      (if decide (title_text post = []) then None else Some (title_text post)).
Proof.
  intros Hfirst Horig Hlen.
  destruct (first_year_search pre (strip line) Hfirst) as (m & Hs & _ & Hen).
  assert (strip line <> []) as Hne by (rewrite Horig; by destruct pre).
  destruct (parse_fields line m Hne Hs) as (record & Hp & _ & Hti & _).
  exists record. split; [done|].
  rewrite Hti, Hen, Horig, after_year_at by done.
  by destruct (title_text post).
Qed.

(** X7. Whatever the line, a title in its record is not empty, is trimmed,
    holds no period and stands in the trimmed line; and the line has a
    year. *)
Theorem parse_title_shape (line : list N) (record : gmap string (option (list N)))
    (title : list N) :
  parse_apa_reference line = Ok record ->
  dict_get record "TI" = Some title ->
  title <> [] /\ strip title = title /\ ~ In 46%N title /\
  occurs_in title (strip line) /\ has_year (strip line).
Proof.
  intros Hp Hti.
  destruct (decide (strip line = [])) as [He|Hne].
  { unfold parse_apa_reference in Hp. rewrite He in Hp. by injection Hp as <-. }
  destruct (re_search year_re (strip line)) as [m|] eqn:Hs.
  - destruct (parse_fields line m Hne Hs) as (record' & Hp' & _ & Hti' & _).
    rewrite Hp in Hp'. injection Hp' as <-. rewrite Hti in Hti'.
    destruct (title_text_spec (drop (m_end m) (strip line))) as (Hidem & Hdot & Hocc).
    destruct (title_text (drop (m_end m) (strip line))) as [|c t] eqn:Et; [done|].
    injection Hti' as ->. split_and!; [done..| |].
    + destruct Hocc as (a & b & Hd). exists (take (m_end m) (strip line) ++ a), b.
      rewrite <- app_assoc, <- Hd. by rewrite take_drop.
    + apply has_year_search. by eexists.
  - rewrite (parse_no_year line Hne Hs) in Hp. injection Hp as <-.
    destruct (initial_record_lookup (strip line)) as (_ & _ & _ & Hi & _).
    by rewrite (dict_get_lookup _ _ _ Hi) in Hti.
Qed.

(** X8. The URL of a line with a year: the text from the first [http://] or
    [https://] that a character other than whitespace follows, up to the
    next whitespace or the end of the line; unset when the line has no such
    place. *)
Theorem parse_url (line : list N) :
  has_year (strip line) ->
  exists record,
    parse_apa_reference line = Ok record /\
    (forall before, first_url_at before (strip line) ->
       dict_get record "UR" =
         Some (nonspace_prefix (drop (length before) (strip line)))) /\
    ((forall before, ~ url_at before (strip line)) ->
       dict_get record "UR" = None).
Proof.
  intros Hy. destruct (proj1 (has_year_search (strip line)) Hy) as [m Hs].
  assert (strip line <> []) as Hne.
  { destruct Hy as (pre & y & post & -> & _). by destruct pre. }
  destruct (parse_fields line m Hne Hs) as (record & Hp & _ & _ & Hur).
  exists record. split; [done|].
  destruct (re_search url_re (strip line)) as [um|] eqn:Hurl.
  - destruct Hur as (url & Hg & Hur).
    destruct (url_search _ _ Hurl)
      as (b0 & scheme & w & t & Horig & Hsc & Hw0 & Hw & Ht & Hf & _ & Hg').
    rewrite Hg' in Hg. injection Hg as <-. split.
    + intros before Hb. rewrite Hur, (first_url_at_length _ _ _ Hb Hf).
      rewrite Horig at 1. rewrite drop_app_length, (app_assoc scheme w t).
      rewrite nonspace_prefix_app; [done| |done].
      apply Forall_app. split; [by apply scheme_nonspace|done].
    + intros Hno. destruct Hf as [Hu _]. by destruct (Hno b0).
  - split; [|done].
    intros before [[um Hum]%url_at_search _]. congruence.
Qed.

(** X9. Whatever the line, a URL in its record starts with [http://] or
    [https://], goes on with at least one more character, holds no
    whitespace and stands in the trimmed line; and the line has a year. *)
Theorem parse_url_shape (line : list N) (record : gmap string (option (list N)))
    (url : list N) :
  parse_apa_reference line = Ok record ->
  dict_get record "UR" = Some url ->
  (exists scheme w, url = scheme ++ w /\ w <> [] /\
     (scheme = lit "http://" \/ scheme = lit "https://")) /\
  Forall (fun c => isspace c = false) url /\
  occurs_in url (strip line) /\ has_year (strip line).
Proof.
  intros Hp Hti.
  destruct (decide (strip line = [])) as [He|Hne].
  { unfold parse_apa_reference in Hp. rewrite He in Hp. by injection Hp as <-. }
  destruct (re_search year_re (strip line)) as [m|] eqn:Hs.
  - destruct (parse_fields line m Hne Hs) as (record' & Hp' & _ & _ & Hur).
    rewrite Hp in Hp'. injection Hp' as <-.
    destruct (re_search url_re (strip line)) as [um|] eqn:Hurl; [|congruence].
    destruct Hur as (url' & Hg & Hur).
    destruct (url_search _ _ Hurl)
      as (b0 & scheme & w & t & Horig & Hsc & Hw0 & Hw & Ht & Hf & _ & Hg').
    rewrite Hg' in Hg. injection Hg as <-. rewrite Hti in Hur. injection Hur as ->.
    split_and!.
    + by exists scheme, w.
    + apply Forall_app. split; [by apply scheme_nonspace|done].
    + exists b0, t. by rewrite <- app_assoc.
    + apply has_year_search. by eexists.
  - rewrite (parse_no_year line Hne Hs) in Hp. injection Hp as <-.
    destruct (initial_record_lookup (strip line)) as (_ & _ & _ & _ & Hi & _).
    by rewrite (dict_get_lookup _ _ _ Hi) in Hti.
Qed.



(** X4. In a line with a year the authors field is always set and ends with
    a comma, also when nothing stands before the year: the test
    [authors if authors else None] never gives [None]. *)
Theorem parse_authors_set (line : list N) :
  has_year (strip line) ->
  exists record authors,
    parse_apa_reference line = Ok record /\
    dict_get record "AU" = Some (authors ++ lit ",").
Proof.
  intros Hy. destruct (proj1 (has_year_search (strip line)) Hy) as [m Hs].
  assert (strip line <> []) as Hne.
  { destruct Hy as (pre & y & post & -> & _). by destruct pre. }
  destruct (parse_with_year line m Hne Hs)
    as (record & year & after & Hp & _ & _ & Hau & _).
  exists record, (author_text (take (m_start m) (strip line))).
  split; [done|]. by apply dict_get_lookup.
Qed.



(** ** The classifier and letter case *)

Ltac case_comparisons :=
  repeat match goal with
         | |- context [(?a <=? ?b)%N] => destruct (N.leb_spec a b)
         | |- context [(?a <? ?b)%N] => destruct (N.ltb_spec a b)
         | |- context [(?a =? ?b)%N] => destruct (N.eqb_spec a b)
         end.

Lemma same_letter_sym (c c' : N) : same_letter c c' -> same_letter c' c.
Proof. intros (? & ? & ?). by split_and!. Qed.

(** Digits, whitespace and the punctuation of the volume pattern have no
    other case. *)
Lemma same_letter_fixed (c c' : N) :
  same_letter c c' ->
  isdecimal c = true \/ isspace c = true \/ c = 40%N \/ c = 41%N \/ c = 44%N ->
  c' = c.
Proof.
  intros (Hc & Hc' & Hl). unfold isdecimal, isspace. rewrite Hc. clear Hc Hc'.
  revert Hl. unfold ascii_lower, ascii_isdecimal, ascii_isspace, between.
  case_comparisons; simpl; intros Hlow Hcase; try lia;
    destruct Hcase as [Hcase|[Hcase|[Hcase|[Hcase|Hcase]]]];
    try discriminate Hcase; lia.
Qed.

Lemma same_letter_isword (c c' : N) :
  same_letter c c' -> isword c = isword c'.
Proof.
  intros (Hc & Hc' & Hl). unfold isword, isalnum, isalpha, isdecimal.
  rewrite Hc, Hc'. clear Hc Hc'.
  revert Hl. unfold ascii_lower, ascii_isalpha, ascii_isdecimal, between.
  case_comparisons; simpl; intros Hlow; try done; lia.
Qed.

Lemma same_letters_fixed (v v' : list N) :
  Forall2 same_letter v v' ->
  Forall (fun c => isdecimal c = true \/ isspace c = true \/
                   c = 40%N \/ c = 41%N \/ c = 44%N) v ->
  v' = v.
Proof.
  induction 1 as [|c c' v v' Hc _ IH]; [done|].
  intros Hall. inversion Hall; subst.
  by rewrite (same_letter_fixed c c'), IH.
Qed.

Lemma ascii_same_letters (s s' : list N) :
  forallb is_ascii s = true -> forallb is_ascii s' = true ->
  map ascii_lower s = map ascii_lower s' ->
  Forall2 same_letter s s'.
Proof.
  revert s'. induction s as [|c s IH]; intros [|c' s'] Hs Hs' Hmap; try done.
  simpl in Hs, Hs'. apply andb_true_iff in Hs as [Hc Hs].
  apply andb_true_iff in Hs' as [Hc' Hs'].
  injection Hmap as Hl Hmap. constructor; [done|by apply IH].
Qed.

Lemma volume_issue_page_case (s s' : list N) :
  Forall2 same_letter s s' -> volume_issue_page s -> volume_issue_page s'.
Proof.
  intros HR (pre & v & i & w1 & w2 & d & post & -> &
             Hv & Hdv & Hi & Hdi & Hw1 & Hw2 & Hd & Hp).
  apply Forall2_app_inv_l in HR as (pre' & r & Hpre & HR & ->).
  apply Forall2_app_inv_l in HR as (v' & r1 & HRv & HR & ->).
  apply Forall2_app_inv_l in HR as (o' & r2 & HRo & HR & ->).
  apply Forall2_app_inv_l in HR as (i' & r3 & HRi & HR & ->).
  apply Forall2_app_inv_l in HR as (c' & r4 & HRc & HR & ->).
  apply Forall2_app_inv_l in HR as (w1' & r5 & HRw1 & HR & ->).
  apply Forall2_app_inv_l in HR as (m' & r6 & HRm & HR & ->).
  apply Forall2_app_inv_l in HR as (w2' & r7 & HRw2 & HR & ->).
  apply Forall2_app_inv_l in HR as (d' & post' & HRd & HR & ->).
  apply same_letters_fixed in HRv; [|eapply Forall_impl; [exact Hdv|]; simpl; tauto].
  apply same_letters_fixed in HRo; [|repeat constructor; tauto].
  apply same_letters_fixed in HRi; [|eapply Forall_impl; [exact Hdi|]; simpl; tauto].
  apply same_letters_fixed in HRc; [|repeat constructor; tauto].
  apply same_letters_fixed in HRw1; [|eapply Forall_impl; [exact Hw1|]; simpl; tauto].
  apply same_letters_fixed in HRm; [|repeat constructor; tauto].
  apply same_letters_fixed in HRw2; [|eapply Forall_impl; [exact Hw2|]; simpl; tauto].
  apply same_letters_fixed in HRd; [|repeat constructor; tauto].
  subst. exists pre', v, i, w1, w2, d, post'. split_and!; try done.
  apply Forall2_last in Hpre.
  destruct Hpre as [x y Hxy|]; [|done]. simpl in *.
  by rewrite <- (same_letter_isword x y).
Qed.

(** X15. The classifier does not look at letter case: two ASCII lines that
    differ only in the case of their letters get the same type. *)
Theorem detect_case_insensitive (original original' after_year after_year' : list N) :
  forallb is_ascii original = true -> forallb is_ascii original' = true ->
  map ascii_lower original = map ascii_lower original' ->
  detect_reference_type original after_year =
  detect_reference_type original' after_year'.
Proof.
  intros Ha Ha' Hmap.
  pose proof (ascii_same_letters _ _ Ha Ha' Hmap) as HR.
  assert (Forall2 same_letter original' original) as HR'.
  { apply Forall2_flip. eapply Forall2_impl; [exact HR|].
    intros ? ?. apply same_letter_sym. }
  unfold detect_reference_type, lower. cbv zeta. rewrite Ha, Ha', Hmap.
  replace (bool_decide (is_Some (re_search volume_issue_re original)))
    with (bool_decide (is_Some (re_search volume_issue_re original'))); [done|].
  apply bool_decide_ext. rewrite !volume_issue_search.
  split; by apply volume_issue_page_case.
Qed.



(** ** The lines of the text the serializer returns *)

Lemma text_lines_plain (l : list N) : ~ In NL l -> text_lines l = [l].
Proof.
  induction l as [|c l IH]; [done|]. intros Hnl. cbn [text_lines].
  destruct (N.eqb_spec c NL) as [->|_]; [destruct Hnl; by left|].
  rewrite IH; [done|]. intros H. apply Hnl. by right.
Qed.

Lemma text_lines_app (l s : list N) :
  ~ In NL l -> text_lines (l ++ NL :: s) = l :: text_lines s.
Proof.
  induction l as [|c l IH]; [done|]. intros Hnl. cbn [app text_lines].
  destruct (N.eqb_spec c NL) as [->|_]; [destruct Hnl; by left|].
  rewrite IH; [done|]. intros H. apply Hnl. by right.
Qed.

Lemma text_lines_join (l : list N) (ls : list (list N)) (t : list N) :
  Forall (fun l => ~ In NL l) (l :: ls) ->
  text_lines (join [NL] (l :: ls) ++ NL :: t) = (l :: ls) ++ text_lines t.
Proof.
  revert l. induction ls as [|l' ls IH]; intros l Hall.
  - inversion Hall; subst. cbn [join app]. by rewrite text_lines_app.
  - inversion Hall as [|? ? Hl Hls]; subst.
    change (join [NL] (l :: l' :: ls)) with (l ++ [NL] ++ join [NL] (l' :: ls)).
    rewrite <- !app_assoc. cbn [app]. rewrite text_lines_app by done.
    by rewrite IH.
Qed.

Lemma in_strip (c : N) (s : list N) : In c (strip s) -> In c s.
Proof.
  intros H. destruct (strip_split s) as (a & b & Hs & _).
  rewrite Hs, !in_app_iff. tauto.
Qed.

Lemma in_take (c : N) (n : nat) (s : list N) : In c (take n s) -> In c s.
Proof. intros H. rewrite <- (take_drop n s), in_app_iff. by left. Qed.

Lemma in_drop (c : N) (n : nat) (s : list N) : In c (drop n s) -> In c s.
Proof. intros H. rewrite <- (take_drop n s), in_app_iff. by right. Qed.

Lemma in_author_text (c : N) (pre : list N) : In c (author_text pre) -> In c pre.
Proof.
  unfold author_text. intros H%in_strip. apply in_strip.
  rewrite drop_period_unfold in H. destruct (decide _); [|done].
  rewrite removelast_firstn_len in H. by apply in_take in H.
Qed.

(** Where the characters of a record's values come from: the trimmed line,
    the comma put after the authors, or a type code. *)
Lemma parse_value_chars (line : list N) (record : gmap string (option (list N)))
    (k : string) (v : list N) (c : N) :
  parse_apa_reference line = Ok record ->
  dict_get record k = Some v -> In c v ->
  In c (strip line) \/ c = 44%N \/ In c (JOUR ++ RPRT ++ ELEC ++ GEN).
Proof.
  intros Hp Hget Hc.
  destruct (decide (strip line = [])) as [He|Hne].
  { unfold parse_apa_reference in Hp. rewrite He in Hp. by injection Hp as <-. }
  assert (In k ris_keys) as Hk.
  { destruct (parse_record_form line Hne) as (ty & au & py & ti & ur & Hform).
    rewrite Hp in Hform. injection Hform as ->.
    unfold dict_get, initial_record in Hget. unfold ris_keys. cbn [In].
    destruct (decide (k = "TY"%string)); [by auto|].
    destruct (decide (k = "AU"%string)); [by auto|].
    destruct (decide (k = "TI"%string)); [by auto|].
    destruct (decide (k = "PY"%string)); [by auto|].
    destruct (decide (k = "UR"%string)); [by auto 6|].
    destruct (decide (k = "N1"%string)); [by auto 7|].
    by repeat (rewrite lookup_insert_ne in Hget by done). }
  destruct (re_search year_re (strip line)) as [m|] eqn:Hs.
  - destruct (parse_with_year line m Hne Hs)
      as (r1 & year & after & Hp1 & _ & _ & Hau & Hty & Hn1).
    destruct (parse_fields line m Hne Hs) as (r2 & Hp2 & Hpy & Hti & Hur).
    rewrite Hp in Hp1, Hp2. injection Hp1 as <-. injection Hp2 as <-.
    apply dict_get_lookup in Hau, Hty, Hn1.
    unfold ris_keys in Hk. cbn [In] in Hk.
    destruct Hk as [<-|[<-|[<-|[<-|[<-|[<-|[]]]]]]].
    + rewrite Hty in Hget. injection Hget as <-. right. right.
      pose proof (detect_codes (strip line) after) as Hcode. cbn [In] in Hcode.
      rewrite !in_app_iff.
      destruct Hcode as [H|[H|[H|[]]]]; rewrite <- H in Hc; tauto.
    + rewrite Hau in Hget. injection Hget as <-.
      apply in_app_iff in Hc as [Hc|Hc].
      * left. by apply in_author_text, in_take in Hc.
      * right. left. by destruct Hc as [<-|[]].
    + rewrite Hti in Hget. destruct (truthy_str _); [|done]. injection Hget as <-.
      destruct (title_text_spec (drop (m_end m) (strip line))) as (_ & _ & a & b & Hocc).
      left. apply (in_drop c (m_end m)). rewrite Hocc, !in_app_iff. tauto.
    + rewrite Hpy in Hget. injection Hget as <-. left.
      by apply in_take, in_drop in Hc.
    + destruct (re_search url_re (strip line)) as [um|] eqn:Hurl; [|congruence].
      destruct Hur as (url & Hg & Hur).
      destruct (url_search _ _ Hurl)
        as (b0 & scheme & w & t & Horig & _ & _ & _ & _ & _ & _ & Hg').
      rewrite Hg' in Hg. injection Hg as <-. rewrite Hget in Hur. injection Hur as ->.
      left. rewrite Horig, (app_assoc scheme w t), (in_app_iff b0), (in_app_iff _ t).
      tauto.
    + rewrite Hn1 in Hget. injection Hget as <-. by left.
  - rewrite (parse_no_year line Hne Hs) in Hp. injection Hp as <-.
    destruct (initial_record_lookup (strip line)) as (Hty & Hau & Hpy & Hti & Hur & Hn1).
    apply dict_get_lookup in Hty, Hau, Hpy, Hti, Hur, Hn1.
    unfold ris_keys in Hk. cbn [In] in Hk.
    destruct Hk as [<-|[<-|[<-|[<-|[<-|[<-|[]]]]]]]; try congruence.
    + rewrite Hty in Hget. injection Hget as <-. right. right.
      rewrite !in_app_iff. tauto.
    + rewrite Hn1 in Hget. injection Hget as <-. by left.
Qed.

(** The lines of the returned text are the lines the serializer built and
    two empty ones, when no value read holds a newline. *)
Lemma record_to_ris_text_lines (record : gmap string (option (list N))) :
  (forall k v, In k ris_keys -> dict_get record k = Some v -> ~ In NL v) ->
  exists lines text,
    ris_lines record = Ok lines /\
    record_to_ris record = Ok text /\
    text_lines text = lines ++ [[]; []].
Proof.
  intros Hvals. eexists _, _. split; [apply ris_lines_spec|].
  split; [unfold record_to_ris; by rewrite ris_lines_spec|].
  assert (forall k, In k ris_keys -> ~ In NL (lit k) ->
            Forall (fun l => ~ In NL l) (field_line record k)) as Hfield.
  { intros k Hk Hlit. unfold field_line.
    destruct (dict_get record k) as [[|c v]|] eqn:Hget; try constructor; [|constructor].
    rewrite !in_app_iff. intros [H|[H|H]]; [done| |by apply (Hvals k (c :: v) Hk)].
    vm_compute in H. intuition discriminate. }
  cbn [app]. rewrite text_lines_join; [done|].
  unfold ris_keys in Hfield. cbn [In] in Hfield.
  constructor.
  - rewrite in_app_iff. intros [H|H]; [vm_compute in H; intuition discriminate|].
    unfold py_or in H. destruct (dict_get record "TY") as [[|c v]|] eqn:Hty.
    + vm_compute in H. intuition discriminate.
    + apply (Hvals "TY"%string (c :: v)); [by left|done|done].
    + vm_compute in H. intuition discriminate.
  - rewrite !Forall_app. split_and!;
      try (apply Hfield; [tauto|vm_compute; intuition discriminate]).
    constructor; [|constructor]. vm_compute. intuition discriminate.
Qed.

(** C7, as amended. For the record of a line that holds no newline, and
    over the lines of the text the serializer returns: the TY line is always
    there, with the record's type or GEN when the type is unset or empty; a
    line of one of the other tags is there exactly when the field is present
    and not empty, and it carries the field's value; no line of a tag has an
    empty value. *)
Theorem record_to_ris_presence (line : list N)
    (record : gmap string (option (list N))) :
  ~ In NL line ->
  parse_apa_reference line = Ok record ->
  exists text,
    record_to_ris record = Ok text /\
    (forall v, In (lit "TY" ++ lit "  - " ++ v) (text_lines text) <->
               v = py_or (dict_get record "TY") (lit "GEN")) /\
    py_or (dict_get record "TY") (lit "GEN") <> [] /\
    (forall k, In k field_tags ->
       (emitted k (text_lines text) <-> truthy (dict_get record k) = true) /\
       (forall v, In (lit k ++ lit "  - " ++ v) (text_lines text) <->
                  dict_get record k = Some v /\ v <> [])) /\
    (forall k, In k ("TY"%string :: field_tags) ->
       ~ In (lit k ++ lit "  - ") (text_lines text)).
Proof.
  intros Hnl Hp.
  destruct (record_to_ris_text_lines record) as (lines & text & Hl & Ht & Hlines).
  { intros k v _ Hget Hin.
    destruct (parse_value_chars line record k v NL Hp Hget Hin) as [H|[H|H]].
    - by apply Hnl, in_strip.
    - discriminate H.
    - vm_compute in H. intuition discriminate. }
  destruct (ris_lines_presence record)
    as (lines' & Hl' & _ & Hty & Htyne & Hfields & Hempty).
  rewrite Hl in Hl'. injection Hl' as <-.
  assert (forall k v, In (lit k ++ lit "  - " ++ v) (text_lines text) <->
                      In (lit k ++ lit "  - " ++ v) lines) as Hin.
  { intros k v. rewrite Hlines, in_app_iff. cbn [In]. split; [|tauto].
    intros [H|[H|[H|[]]]]; [done| |];
      symmetry in H; apply app_eq_nil in H as [_ H]; discriminate H. }
  exists text. split; [done|]. split_and!.
  - intros v. by rewrite Hin.
  - done.
  - intros k Hk. destruct (Hfields k Hk) as [Hem Hval]. split.
    + rewrite <- Hem. unfold emitted. by setoid_rewrite Hin.
    + intros v. by rewrite Hin.
  - intros k Hk. rewrite <- (app_nil_r (lit "  - ")), Hin, app_nil_r.
    by apply Hempty.
Qed.



(** ** The page: encoding the result *)

Lemma utf8_char_surrogate (c : N) :
  (is_surrogate c = false /\ exists bytes, utf8_char c = Some bytes) \/
  (is_surrogate c = true /\ utf8_char c = None).
Proof.
  unfold utf8_char. destruct (is_surrogate c) eqn:Hs.
  - right. split; [done|]. unfold is_surrogate in Hs.
    apply andb_true_iff in Hs as [H1%N.leb_le H2%N.leb_le].
    destruct (N.ltb_spec c 128); [lia|]. by destruct (N.ltb_spec c 2048); [lia|].
  - left. split; [done|].
    destruct (c <? 128)%N; [by eexists|]. destruct (c <? 2048)%N; [by eexists|].
    destruct (c <? 65536)%N; by eexists.
Qed.

(** [encode] raises exactly on a text with a surrogate. *)
Lemma encode_utf8_surrogate (s : list N) :
  (Forall (fun c => is_surrogate c = false) s /\ exists data, encode_utf8 s = Some data) \/
  (Exists (fun c => is_surrogate c = true) s /\ encode_utf8 s = None).
Proof.
  induction s as [|c s IH]; [left; split; [constructor|by eexists]|].
  cbn [encode_utf8].
  destruct (utf8_char_surrogate c) as [[Hc [bytes ->]]|[Hc ->]].
  - destruct IH as [[Hs [data ->]]|[Hs ->]].
    + left. split; [by constructor|by eexists].
    + right. split; [by apply Exists_cons_tl|done].
  - right. split; [by apply Exists_cons_hd|done].
Qed.

Lemma ascii_not_surrogate (c : N) : is_ascii c = true -> is_surrogate c = false.
Proof.
  unfold is_ascii, is_surrogate. intros H%N.ltb_lt.
  destruct (N.leb_spec 55296 c); [lia|done].
Qed.

(** ** Where the characters of the result come from *)

Section Characters.

Context (P : N -> Prop).
Context (P_ascii : forall c, is_ascii c = true -> P c).

Lemma ascii_text (s : list N) : forallb is_ascii s = true -> Forall P s.
Proof.
  induction s as [|c s IH]; [constructor|]. simpl.
  intros [Hc Hs]%andb_true_iff. constructor; [by apply P_ascii|by apply IH].
Qed.

Lemma splitlines_sub (s : list N) :
  Forall P s -> Forall (Forall P) (splitlines s).
Proof.
  induction s as [s IH] using (induction_ltof1 _ (@length N)). unfold ltof in IH.
  destruct s as [|c s]; [constructor|]. intros Hall.
  inversion Hall as [|? ? Hc Hs]; subst.
  destruct (islinebreak c) eqn:Hbr.
  - rewrite splitlines_cons_break by done. constructor; [constructor|].
    destruct s as [|c' s'']; [constructor|].
    inversion Hs; subst.
    destruct ((c =? CR)%N && (c' =? LF)%N); apply IH; simpl; (lia || done).
  - rewrite splitlines_cons_plain by done.
    assert (Forall (Forall P) (splitlines s)) as H by (apply IH; simpl; (lia || done)).
    destruct (splitlines s) as [|l ls]; [by repeat constructor|].
    inversion H; subst. constructor; [by constructor|done].
Qed.

Lemma record_to_ris_chars (record : gmap string (option (list N))) (entry : list N) :
  (forall k v, dict_get record k = Some v -> Forall P v) ->
  record_to_ris record = Ok entry -> Forall P entry.
Proof.
  intros Hvals. rewrite record_to_ris_spec. intros H.
  pose proof (f_equal (fun r => match r with Ok x => x | Raise _ => [] end) H) as E.
  cbv beta iota in E. rewrite <- E. clear H E.
  assert (forall k, forallb is_ascii (lit k) = true -> Forall P (field_text record k))
    as Hfield.
  { intros k Hk. unfold field_text.
    destruct (dict_get record k) as [[|c v]|] eqn:Hget; try constructor.
    rewrite !Forall_app. split_and!; [by apply ascii_text|by apply ascii_text| |].
    - by apply Hvals in Hget.
    - by apply ascii_text. }
  rewrite !Forall_app. split_and!; try (by apply ascii_text); try (by apply Hfield).
  unfold py_or. destruct (dict_get record "TY") as [[|c v]|] eqn:Hty;
    [by apply ascii_text|by apply Hvals in Hty|by apply ascii_text].
Qed.

Lemma parse_chars (line : list N) (record : gmap string (option (list N)))
    (k : string) (v : list N) :
  Forall P line -> parse_apa_reference line = Ok record ->
  dict_get record k = Some v -> Forall P v.
Proof.
  intros Hline Hp Hget. apply Forall_forall. intros c Hc%list_elem_of_In.
  destruct (parse_value_chars line record k v c Hp Hget Hc) as [H|[->|H]].
  - apply in_strip, list_elem_of_In in H. rewrite Forall_forall in Hline. by apply Hline.
  - by apply P_ascii.
  - assert (Forall P (JOUR ++ RPRT ++ ELEC ++ GEN)) as Hcodes by (by apply ascii_text).
    rewrite Forall_forall in Hcodes. by apply Hcodes, list_elem_of_In.
Qed.

Lemma convert_lines_chars (lines added : list (list N)) :
  Forall (Forall P) lines ->
  convert_lines lines [] = Ok added -> Forall (Forall P) added.
Proof.
  revert added. induction lines as [|line lines IH]; intros added Hall.
  - intros [= <-]. constructor.
  - inversion Hall as [|? ? Hline Hlines]; subst. cbn [convert_lines].
    destruct (negb (truthy_str (strip line))); [by apply IH|].
    destruct (parse_apa_reference (strip line)) as [record|e] eqn:Hp;
      cbn [mbind result_bind]; [|done].
    destruct (bool_decide (record = ∅)); [by apply IH|].
    destruct (record_to_ris record) as [entry|e] eqn:He;
      cbn [mbind result_bind]; [|done].
    rewrite convert_lines_acc.
    destruct (convert_lines lines []) as [added'|e]; [|done].
    intros [= <-]. constructor; [|by apply IH].
    apply (record_to_ris_chars record); [|done].
    intros k v Hget. apply (parse_chars (strip line) record k v); [|done|done].
    apply Forall_forall. intros c Hc%list_elem_of_In%in_strip%list_elem_of_In.
    rewrite Forall_forall in Hline. by apply Hline.
Qed.

(** Every character of the result is a character of the input or ASCII. *)
Lemma references_chars (text out : list N) :
  Forall P text -> references_text_to_ris text = Ok out -> Forall P out.
Proof.
  intros Htext. unfold references_text_to_ris.
  destruct (convert_lines (splitlines text) []) as [added|e] eqn:Hc; [|done].
  intros [= <-]. apply Forall_concat.
  by apply (convert_lines_chars (splitlines text)); [apply splitlines_sub|].
Qed.

End Characters.

(** X14. What a click on the button does.  Provided every line break of the
    character database counts as whitespace (as in Unicode): a blank input
    gets the warning; every other input gets the success notice and the
    text area with the conversion result, which is not blank, and then the
    download button with the UTF-8 bytes of the result, unless the result
    holds a surrogate, in which case [encode] raises [UnicodeEncodeError]
    in place of the button.  The error notice is never shown, the
    conversion itself never raises, and the result of an input without
    surrogates has none. *)
Theorem convert_button_outcome (input_text : list N) :
  (forall c, islinebreak c = true -> isspace c = true) ->
  (strip input_text = [] /\
   convert_button input_text =
     Page [st_warning (lit "Please paste at least one APA 7th reference.")] None) \/
  (strip input_text <> [] /\
   exists ris_text,
     references_text_to_ris input_text = Ok ris_text /\
     strip ris_text <> [] /\
     (Forall (fun c => is_surrogate c = false) input_text ->
      Forall (fun c => is_surrogate c = false) ris_text) /\
     ((Forall (fun c => is_surrogate c = false) ris_text /\
       exists data,
         encode_utf8 ris_text = Some data /\
         convert_button input_text =
           Page [st_success (lit "RIS output generated.");
                 st_text_area (lit "RIS output") ris_text 300;
                 st_download_button (lit "Download RIS file") data
                   (lit "references.ris")
                   (lit "application/x-research-info-systems")] None) \/
      (Exists (fun c => is_surrogate c = true) ris_text /\
       convert_button input_text =
         Page [st_success (lit "RIS output generated.");
               st_text_area (lit "RIS output") ris_text 300]
              (Some UnicodeEncodeError)))).
Proof.
  intros Hlb. unfold convert_button.
  destruct (strip input_text) as [|c0 t0] eqn:Hin; [by left|right].
  assert (strip input_text <> []) as Hne by (by rewrite Hin).
  split; [done|]. cbn [truthy_str negb].
  destruct (references_text_to_ris input_text) as [ris_text|e] eqn:Hout.
  2:{ unfold references_text_to_ris in Hout.
      destruct (convert_lines_spec (splitlines input_text) []) as (added & Hc & _).
      by rewrite Hc in Hout. }
  assert (strip ris_text <> []) as Hris.
  { unfold references_text_to_ris in Hout.
    destruct (convert_lines_spec (splitlines input_text) [])
      as (added & Hc & _ & Hblank & _).
    rewrite Hc in Hout. cbn [mbind result_bind mret result_ret app] in Hout.
    injection Hout as <-.
    pose proof (convert_lines_heads _ _ Hc) as Hheads.
    destruct added as [|e added].
    { destruct (nonblank_text_line input_text Hlb Hne). by apply Hblank. }
    inversion Hheads as [|? ? He _]; subst.
    destruct e as [|x e]; [done|]. injection He as ->.
    apply (strip_has_nonspace _ 84%N); [by left|reflexivity]. }
  exists ris_text. split; [done|]. split; [done|]. split.
  { intros Hall. apply (references_chars _ ascii_not_surrogate input_text); done. }
  destruct (strip ris_text) as [|c1 t1]; [done|]. cbn [truthy_str negb].
  destruct (encode_utf8_surrogate ris_text) as [[Hs [data Hd]]|[Hs Hd]]; rewrite Hd.
  - left. split; [done|]. by exists data.
  - by right.
Qed.


End Program.

(** ** The specification's examples and the claims on concrete lines

    The inputs below are ASCII, so the character database is never
    consulted: the results hold for every database, and are stated for
    [ascii_db] where a closed statement is wanted. *)


Example example1_output (db : unicode_db) :
  references_text_to_ris db example1 =
  Ok (lit "TY  - JOUR" ++ [NL] ++
      lit "AU  - Smith, J," ++ [NL] ++
      lit "TI  - A study of things" ++ [NL] ++
      lit "PY  - 2020" ++ [NL] ++
      lit "UR  - https://doi.org/10.1/x" ++ [NL] ++
      lit "N1  - " ++ example1 ++ [NL] ++
      lit "ER  - " ++ [NL; NL]).
Proof. vm_compute. reflexivity. Qed.

Example example2_output (db : unicode_db) :
  references_text_to_ris db example2 =
  Ok (lit "TY  - RPRT" ++ [NL] ++
      lit "AU  - World Health Organization," ++ [NL] ++
      lit "TI  - Global report on X [technical report]" ++ [NL] ++
      lit "PY  - 2021" ++ [NL] ++
      lit "N1  - " ++ example2 ++ [NL] ++
      lit "ER  - " ++ [NL; NL]).
Proof. vm_compute. reflexivity. Qed.

Example example3_output (db : unicode_db) :
  references_text_to_ris db example3 =
  Ok (lit "TY  - ELEC" ++ [NL] ++
      lit "AU  - Random Blog," ++ [NL] ++
      lit "TI  - Some opinion piece" ++ [NL] ++
      lit "PY  - 2022" ++ [NL] ++
      lit "UR  - https://example.com/post" ++ [NL] ++
      lit "N1  - " ++ example3 ++ [NL] ++
      lit "ER  - " ++ [NL; NL]).
Proof. vm_compute. reflexivity. Qed.

Example example4_output (db : unicode_db) :
  references_text_to_ris db example4 =
  Ok (lit "TY  - GEN" ++ [NL] ++
      lit "N1  - " ++ example4 ++ [NL] ++
      lit "ER  - " ++ [NL; NL]).
Proof. vm_compute. reflexivity. Qed.

Example example5_output (db : unicode_db) :
  references_text_to_ris db [] = Ok [].
Proof. reflexivity. Qed.

(** Two references, separated by CR LF and followed by a blank line. *)
Example two_lines_output (db : unicode_db) :
  references_text_to_ris db (example4 ++ [CR; LF] ++ example2 ++ [NL] ++ lit "   " ++ [NL]) =
  Ok (lit "TY  - GEN" ++ [NL] ++
      lit "N1  - " ++ example4 ++ [NL] ++
      lit "ER  - " ++ [NL; NL] ++
      lit "TY  - RPRT" ++ [NL] ++
      lit "AU  - World Health Organization," ++ [NL] ++
      lit "TI  - Global report on X [technical report]" ++ [NL] ++
      lit "PY  - 2021" ++ [NL] ++
      lit "N1  - " ++ example2 ++ [NL] ++
      lit "ER  - " ++ [NL; NL]).
Proof. vm_compute. reflexivity. Qed.

(** *** C1: a line without a year is not dropped *)

Lemma example4_no_year (db : unicode_db) :
  Forall (fun l => ~ has_year db l) (splitlines db example4).
Proof.
  change (splitlines db example4) with [example4].
  constructor; [|constructor]. apply no_year_search. vm_compute. reflexivity.
Qed.

(** The claim as first stated fails on the specification's own fourth
    example: no line holds a year, and the result is a GEN block, not the
    empty string. *)
Lemma references_without_year_not_empty :
  Forall (fun l => ~ has_year ascii_db l) (splitlines ascii_db example4) /\
  references_text_to_ris ascii_db example4 =
    Ok (lit "TY  - GEN" ++ [NL] ++
        lit "N1  - No year reference without parentheses." ++ [NL] ++
        lit "ER  - " ++ [NL; NL]) /\
  references_text_to_ris ascii_db example4 <> Ok [].
Proof.
  split; [apply example4_no_year|].
  rewrite example4_output. split; [reflexivity|discriminate].
Qed.

Lemma references_without_year_witness :
  Forall (fun l => ~ has_year ascii_db l) (splitlines ascii_db example4) /\
  references_text_to_ris ascii_db example4 =
    Ok (concat (map (generic_entry ascii_db) (splitlines ascii_db example4))) /\
  (concat (map (generic_entry ascii_db) (splitlines ascii_db example4)) = [] <->
   Forall (blank ascii_db) (splitlines ascii_db example4)).
Proof.
  split; [apply example4_no_year|].
  apply (references_without_year ascii_db example4), example4_no_year.
Defined.

(** *** C2: the authors field *)


Lemma spaced_period_first_year (db : unicode_db) :
  first_year_at db (lit "Smith . ") (strip db spaced_period).
Proof.
  eapply first_year_at_by_search; vm_compute; reflexivity.
Qed.

(** The claim as first stated fails where whitespace stands before the
    trailing period: the text before the year, trimmed and without its
    period, still ends in a space, which the code trims as well. *)
Lemma parse_authors_trims_again :
  first_year_at ascii_db (lit "Smith . ") (strip ascii_db spaced_period) /\
  (exists record,
     parse_apa_reference ascii_db spaced_period = Ok record /\
     dict_get record "AU" = Some (lit "Smith,")) /\
  author_text_words ascii_db (lit "Smith . ") ++ lit "," = lit "Smith ," /\
  lit "Smith ," <> lit "Smith,".
Proof.
  split; [apply spaced_period_first_year|].
  split; [|split; [vm_compute; reflexivity|discriminate]].
  apply parsed_field_Ok. vm_compute. reflexivity.
Qed.

Lemma parse_authors_witness :
  first_year_at ascii_db (lit "Smith . ") (strip ascii_db spaced_period) /\
  author_text ascii_db (lit "Smith . ") <> [] /\
  exists record,
    parse_apa_reference ascii_db spaced_period = Ok record /\
    dict_get record "AU" = Some (author_text ascii_db (lit "Smith . ") ++ lit ",").
Proof.
  split; [apply spaced_period_first_year|].
  split; [vm_compute; discriminate|].
  apply (parse_authors ascii_db spaced_period (lit "Smith . ")).
  - apply spaced_period_first_year.
  - vm_compute. discriminate.
Defined.

(** When nothing stands before the year the field is a lone comma: the test
    [authors if authors else None] comes after the comma is appended and so
    never sees an empty string. *)
Example parse_authors_lone_comma (db : unicode_db) :
  exists record,
    parse_apa_reference db (lit "(2020). Title here. More") = Ok record /\
    dict_get record "AU" = Some (lit ",").
Proof. apply parsed_field_Ok. vm_compute. reflexivity. Qed.

(** *** C3: no year, no extraction *)


Lemma parse_without_year_witness :
  strip ascii_db no_year_line <> [] /\
  ~ has_year ascii_db no_year_line /\
  exists record,
    parse_apa_reference ascii_db no_year_line = Ok record /\
    dict_get record "TY" = Some GEN /\
    dict_get record "N1" = Some (strip ascii_db no_year_line) /\
    dict_get record "AU" = None /\
    dict_get record "PY" = None /\
    dict_get record "TI" = None /\
    dict_get record "UR" = None.
Proof.
  assert (strip ascii_db no_year_line <> []) as Hne by (vm_compute; discriminate).
  assert (~ has_year ascii_db no_year_line) as Hno.
  { apply no_year_search. vm_compute. reflexivity. }
  split; [exact Hne|]. split; [exact Hno|].
  exact (parse_without_year ascii_db no_year_line Hne Hno).
Defined.

(** *** C4: a DOI makes a journal article *)


Lemma detect_doi_is_journal_witness :
  has_doi_indicator ascii_db institutional_doi /\
  has_institution_keyword ascii_db institutional_doi /\
  has_report_marker ascii_db institutional_doi /\
  detect_reference_type ascii_db institutional_doi [] = JOUR.
Proof.
  assert (has_doi_indicator ascii_db institutional_doi) as Hdoi.
  { apply doi_indicator_spec. vm_compute. reflexivity. }
  split; [exact Hdoi|].
  split; [apply institution_keyword_spec; vm_compute; reflexivity|].
  split; [apply report_marker_spec; vm_compute; reflexivity|].
  exact (detect_doi_is_journal ascii_db institutional_doi [] Hdoi).
Defined.

(** *** C5: the volume(issue), page pattern *)


(** The claim as first stated fails where a letter stands right before the
    volume: the pattern of the claim is there, [\b] finds no word boundary,
    and the line is classified Electronic. *)
Lemma detect_glued_volume_not_journal :
  ~ has_doi_indicator ascii_db glued_volume /\
  volume_issue_page_words ascii_db glued_volume /\
  detect_reference_type ascii_db glued_volume [] = ELEC /\
  ELEC <> JOUR.
Proof.
  split; [apply no_doi_indicator_spec; vm_compute; reflexivity|].
  split; [|split; [vm_compute; reflexivity|discriminate]].
  exists (lit "Nature, v"), (lit "12"), (lit "3"), [], (lit " "), 52%N, (lit "5").
  split; [reflexivity|]. unfold digits, spaces.
  split_and!; try discriminate; try reflexivity; repeat constructor.
Qed.


Lemma detect_journal_iff_volume_issue_witness :
  ~ has_doi_indicator ascii_db plain_volume /\
  (detect_reference_type ascii_db plain_volume [] = JOUR <->
   volume_issue_page ascii_db plain_volume).
Proof.
  assert (~ has_doi_indicator ascii_db plain_volume) as Hdoi.
  { apply no_doi_indicator_spec. vm_compute. reflexivity. }
  split; [exact Hdoi|].
  exact (detect_journal_iff_volume_issue ascii_db plain_volume [] Hdoi).
Defined.

Example plain_volume_is_journal (db : unicode_db) :
  detect_reference_type db plain_volume [] = JOUR.
Proof. vm_compute. reflexivity. Qed.

(** *** C6: reports and the default *)

Lemma detect_report_or_electronic_witness :
  ~ has_doi_indicator ascii_db example2 /\
  ~ volume_issue_page ascii_db example2 /\
  (has_institution_keyword ascii_db example2 -> has_report_marker ascii_db example2 ->
   detect_reference_type ascii_db example2 [] = RPRT) /\
  (has_institution_keyword ascii_db example2 ->
   ~ occurs_in (lit "doi") (lower ascii_db example2) ->
   detect_reference_type ascii_db example2 [] = RPRT) /\
  (~ (has_institution_keyword ascii_db example2 /\ has_report_marker ascii_db example2) ->
   ~ (has_institution_keyword ascii_db example2 /\
      ~ occurs_in (lit "doi") (lower ascii_db example2)) ->
   detect_reference_type ascii_db example2 [] = ELEC).
Proof.
  assert (~ has_doi_indicator ascii_db example2) as Hdoi.
  { apply no_doi_indicator_spec. vm_compute. reflexivity. }
  assert (~ volume_issue_page ascii_db example2) as Hvol.
  { apply no_volume_issue_spec. vm_compute. reflexivity. }
  split; [exact Hdoi|]. split; [exact Hvol|].
  exact (detect_report_or_electronic ascii_db example2 [] Hdoi Hvol).
Defined.

(** An institution keyword next to [doi] without a DOI indicator and
    without a report marker: neither Report rule applies. *)
Example keyword_with_doi_is_electronic (db : unicode_db) :
  detect_reference_type db (lit "University of X. (2020). Title. doi 10.1/x") [] = ELEC.
Proof. vm_compute. reflexivity. Qed.

(** *** C8: the layout of a block *)

Lemma record_to_ris_layout_witness :
  strip ascii_db example3 <> [] /\
  exists record ty,
    parse_apa_reference ascii_db example3 = Ok record /\
    dict_get record "TY" = Some ty /\
    In ty [GEN; JOUR; RPRT; ELEC] /\
    record_to_ris record =
    Ok (lit "TY" ++ lit "  - " ++ ty ++ [NL] ++
        field_text record "AU" ++ field_text record "TI" ++
        field_text record "PY" ++ field_text record "UR" ++
        lit "N1" ++ lit "  - " ++ strip ascii_db example3 ++ [NL] ++
        lit "ER  - " ++ [NL] ++ [NL]).
Proof.
  assert (strip ascii_db example3 <> []) as Hne by (vm_compute; discriminate).
  split; [exact Hne|].
  destruct (parse_shape ascii_db example3 Hne) as (record & ty0 & Hp & _).
  destruct (record_to_ris_layout ascii_db example3 record Hne Hp) as (ty & Hty & Hcode & Hout).
  exists record, ty. by split_and!.
Defined.

(** ** The further properties on concrete lines *)

Example example1_fields (db : unicode_db) :
  parsed_field db example1 "PY" = Ok (Some (lit "2020")) /\
  parsed_field db example1 "TI" = Ok (Some (lit "A study of things")) /\
  parsed_field db example1 "UR" = Ok (Some (lit "https://doi.org/10.1/x")) /\
  parsed_field db example1 "AU" = Ok (Some (lit "Smith, J,")).
Proof. split_and!; vm_compute; reflexivity. Qed.

Lemma example1_first_year (db : unicode_db) :
  first_year_at db (lit "Smith, J. ") (strip db example1).
Proof.
  eapply first_year_at_by_search; vm_compute; reflexivity.
Qed.

Lemma example1_has_year (db : unicode_db) : has_year db (strip db example1).
Proof. exists (lit "Smith, J. "). apply example1_first_year. Qed.

Lemma ascii_linebreak_isspace (c : N) :
  islinebreak ascii_db c = true -> isspace ascii_db c = true.
Proof.
  unfold islinebreak, isspace. destruct (is_ascii c); [|done].
  unfold ascii_islinebreak, ascii_isspace, between.
  rewrite !orb_true_iff, !andb_true_iff, !N.leb_le, N.eqb_eq. lia.
Qed.

Lemma parse_ignores_padding_witness :
  spaces ascii_db (lit "  ") /\ spaces ascii_db (lit " ") /\
  parse_apa_reference ascii_db (lit "  " ++ example3 ++ lit " ") =
  parse_apa_reference ascii_db example3.
Proof.
  assert (spaces ascii_db (lit "  ")) as Ha by (repeat constructor).
  assert (spaces ascii_db (lit " ")) as Hb by (repeat constructor).
  split; [exact Ha|]. split; [exact Hb|].
  exact (parse_ignores_padding ascii_db (lit "  ") example3 (lit " ") Ha Hb).
Defined.

Lemma parse_type_witness :
  strip ascii_db example2 <> [] /\
  exists record ty,
    parse_apa_reference ascii_db example2 = Ok record /\
    dict_get record "TY" = Some ty /\
    (~ has_year ascii_db (strip ascii_db example2) -> ty = GEN) /\
    (has_year ascii_db (strip ascii_db example2) ->
     ty = detect_reference_type ascii_db (strip ascii_db example2) [] /\ ty <> GEN).
Proof.
  assert (strip ascii_db example2 <> []) as Hne by (vm_compute; discriminate).
  split; [exact Hne|].
  exact (parse_type ascii_db example2 Hne).
Defined.

Lemma parse_authors_set_witness :
  has_year ascii_db (strip ascii_db (lit "(2020). Title here. More")) /\
  exists record authors,
    parse_apa_reference ascii_db (lit "(2020). Title here. More") = Ok record /\
    dict_get record "AU" = Some (authors ++ lit ",").
Proof.
  assert (has_year ascii_db (strip ascii_db (lit "(2020). Title here. More"))) as Hy.
  { exists []. eapply first_year_at_by_search; vm_compute; reflexivity. }
  split; [exact Hy|].
  exact (parse_authors_set ascii_db (lit "(2020). Title here. More") Hy).
Defined.

Lemma parse_year_witness :
  first_year_at ascii_db (lit "Smith, J. ") (strip ascii_db example1) /\
  exists record,
    parse_apa_reference ascii_db example1 = Ok record /\
    dict_get record "PY" = Some (lit "2020").
Proof.
  split; [apply example1_first_year|].
  apply (parse_year ascii_db example1 (lit "Smith, J. ") (lit "2020")
    (lit ". A study of things. Journal of Things, 5(2), 10-20. https://doi.org/10.1/x")).
  - apply example1_first_year.
  - vm_compute. reflexivity.
  - reflexivity.
Defined.

Lemma parse_title_witness :
  first_year_at ascii_db (lit "Smith, J. ") (strip ascii_db example1) /\
  title_text ascii_db
    (lit ". A study of things. Journal of Things, 5(2), 10-20. https://doi.org/10.1/x")
    = lit "A study of things" /\
  exists record,
    parse_apa_reference ascii_db example1 = Ok record /\
    dict_get record "TI" =
      (if decide (title_text ascii_db
            (lit ". A study of things. Journal of Things, 5(2), 10-20. https://doi.org/10.1/x")
            = [])
       then None
       else Some (title_text ascii_db
            (lit ". A study of things. Journal of Things, 5(2), 10-20. https://doi.org/10.1/x"))).
Proof.
  split; [apply example1_first_year|].
  split; [vm_compute; reflexivity|].
  apply (parse_title ascii_db example1 (lit "Smith, J. ") (lit "2020")
    (lit ". A study of things. Journal of Things, 5(2), 10-20. https://doi.org/10.1/x")).
  - apply example1_first_year.
  - vm_compute. reflexivity.
  - reflexivity.
Defined.

Lemma parse_title_shape_witness :
  exists record,
    parse_apa_reference ascii_db example1 = Ok record /\
    dict_get record "TI" = Some (lit "A study of things") /\
    lit "A study of things" <> [] /\
    strip ascii_db (lit "A study of things") = lit "A study of things" /\
    ~ In 46%N (lit "A study of things") /\
    occurs_in (lit "A study of things") (strip ascii_db example1) /\
    has_year ascii_db (strip ascii_db example1).
Proof.
  destruct (parsed_field_Ok ascii_db example1 "TI" (Some (lit "A study of things")))
    as (record & Hp & Hti); [vm_compute; reflexivity|].
  exists record. split; [exact Hp|]. split; [exact Hti|].
  exact (parse_title_shape ascii_db example1 record (lit "A study of things") Hp Hti).
Defined.

Lemma parse_url_witness :
  has_year ascii_db (strip ascii_db example1) /\
  exists record,
    parse_apa_reference ascii_db example1 = Ok record /\
    (forall before, first_url_at ascii_db before (strip ascii_db example1) ->
       dict_get record "UR" =
         Some (nonspace_prefix ascii_db (drop (length before) (strip ascii_db example1)))) /\
    ((forall before, ~ url_at ascii_db before (strip ascii_db example1)) ->
       dict_get record "UR" = None).
Proof.
  split; [apply example1_has_year|].
  exact (parse_url ascii_db example1 (example1_has_year ascii_db)).
Defined.

Lemma parse_url_shape_witness :
  exists record,
    parse_apa_reference ascii_db example3 = Ok record /\
    dict_get record "UR" = Some (lit "https://example.com/post") /\
    (exists scheme w, lit "https://example.com/post" = scheme ++ w /\ w <> [] /\
       (scheme = lit "http://" \/ scheme = lit "https://")) /\
    Forall (fun c => isspace ascii_db c = false) (lit "https://example.com/post") /\
    occurs_in (lit "https://example.com/post") (strip ascii_db example3) /\
    has_year ascii_db (strip ascii_db example3).
Proof.
  destruct (parsed_field_Ok ascii_db example3 "UR" (Some (lit "https://example.com/post")))
    as (record & Hp & Hur); [vm_compute; reflexivity|].
  exists record. split; [exact Hp|]. split; [exact Hur|].
  exact (parse_url_shape ascii_db example3 record (lit "https://example.com/post") Hp Hur).
Defined.

Lemma record_to_ris_other_keys_witness :
  ~ In "DO"%string ris_keys /\
  record_to_ris (<["DO"%string := Some (lit "10.1/x")]> (initial_record example4)) =
    record_to_ris (initial_record example4) /\
  record_to_ris (delete "DO"%string (initial_record example4)) =
    record_to_ris (initial_record example4).
Proof.
  assert (~ In "DO"%string ris_keys) as Hk.
  { unfold ris_keys. cbn [In]. intros [H|[H|[H|[H|[H|[H|[]]]]]]]; discriminate H. }
  split; [exact Hk|].
  exact (record_to_ris_other_keys (initial_record example4) "DO"
           (Some (lit "10.1/x")) Hk).
Defined.


Lemma detect_case_insensitive_witness :
  forallb is_ascii (lit "WHO Technical Report, DOI:10.1/X") = true /\
  forallb is_ascii (lit "who technical report, doi:10.1/x") = true /\
  map ascii_lower (lit "WHO Technical Report, DOI:10.1/X") =
    map ascii_lower (lit "who technical report, doi:10.1/x") /\
  detect_reference_type ascii_db (lit "WHO Technical Report, DOI:10.1/X") [] =
  detect_reference_type ascii_db (lit "who technical report, doi:10.1/x") [].
Proof.
  split; [reflexivity|]. split; [reflexivity|]. split; [reflexivity|].
  apply (detect_case_insensitive ascii_db); reflexivity.
Defined.

(** A text with a newline handed to the extractor as one line: the authors
    are unset, and the returned text has an AU line all the same, the second
    half of the note. *)
Lemma record_to_ris_newline_field :
  parsed_field ascii_db newline_in_line "AU" = Ok None /\
  (record ← parse_apa_reference ascii_db newline_in_line;
   text ← record_to_ris record;
   mret (text_lines text)) =
  Ok [lit "TY  - GEN"; lit "N1  - foo"; lit "AU  - Fake, A.,"; lit "ER  - "; []; []] /\
  In (lit "AU" ++ lit "  - " ++ lit "Fake, A.,")
     [lit "TY  - GEN"; lit "N1  - foo"; lit "AU  - Fake, A.,"; lit "ER  - "; []; []].
Proof.
  split; [vm_compute; reflexivity|]. split; [vm_compute; reflexivity|].
  right. right. left. reflexivity.
Qed.

(** The batch driver cuts the same text at its newline: two records, no AU
    line in the first. *)
Example newline_in_line_driver (db : unicode_db) :
  references_text_to_ris db newline_in_line =
  Ok (lit "TY  - GEN" ++ [NL] ++ lit "N1  - foo" ++ [NL] ++
      lit "ER  - " ++ [NL; NL] ++
      lit "TY  - GEN" ++ [NL] ++ lit "N1  - AU  - Fake, A.," ++ [NL] ++
      lit "ER  - " ++ [NL; NL]).
Proof. vm_compute. reflexivity. Qed.

Lemma record_to_ris_presence_witness :
  ~ In NL example1 /\
  exists record,
    parse_apa_reference ascii_db example1 = Ok record /\
    exists text,
      record_to_ris record = Ok text /\
      (forall v, In (lit "TY" ++ lit "  - " ++ v) (text_lines text) <->
                 v = py_or (dict_get record "TY") (lit "GEN")) /\
      py_or (dict_get record "TY") (lit "GEN") <> [] /\
      (forall k, In k field_tags ->
         (emitted k (text_lines text) <-> truthy (dict_get record k) = true) /\
         (forall v, In (lit k ++ lit "  - " ++ v) (text_lines text) <->
                    dict_get record k = Some v /\ v <> [])) /\
      (forall k, In k ("TY"%string :: field_tags) ->
         ~ In (lit k ++ lit "  - ") (text_lines text)).
Proof.
  assert (~ In NL example1) as Hnl by (vm_compute; intuition discriminate).
  assert (strip ascii_db example1 <> []) as Hne by (vm_compute; discriminate).
  split; [exact Hnl|].
  destruct (parse_shape ascii_db example1 Hne) as (record & ty & Hp & _).
  exists record. split; [exact Hp|].
  exact (record_to_ris_presence ascii_db example1 record Hnl Hp).
Defined.

(** The lines of the text returned for the first example. *)
Example example1_text_lines (db : unicode_db) :
  (record ← parse_apa_reference db example1;
   text ← record_to_ris record;
   mret (text_lines text)) =
  Ok [lit "TY  - JOUR"; lit "AU  - Smith, J,"; lit "TI  - A study of things";
      lit "PY  - 2020"; lit "UR  - https://doi.org/10.1/x";
      lit "N1  - Smith, J. (2020). A study of things. Journal of Things, 5(2), 10-20. https://doi.org/10.1/x";
      lit "ER  - "; []; []].
Proof. vm_compute. reflexivity. Qed.

Lemma convert_button_outcome_witness :
  (forall c, islinebreak ascii_db c = true -> isspace ascii_db c = true) /\
  ((strip ascii_db example3 = [] /\
    convert_button ascii_db example3 =
      Page [st_warning (lit "Please paste at least one APA 7th reference.")] None) \/
   (strip ascii_db example3 <> [] /\
    exists ris_text,
      references_text_to_ris ascii_db example3 = Ok ris_text /\
      strip ascii_db ris_text <> [] /\
      (Forall (fun c => is_surrogate c = false) example3 ->
       Forall (fun c => is_surrogate c = false) ris_text) /\
      ((Forall (fun c => is_surrogate c = false) ris_text /\
        exists data,
          encode_utf8 ris_text = Some data /\
          convert_button ascii_db example3 =
            Page [st_success (lit "RIS output generated.");
                  st_text_area (lit "RIS output") ris_text 300;
                  st_download_button (lit "Download RIS file") data
                    (lit "references.ris")
                    (lit "application/x-research-info-systems")] None) \/
       (Exists (fun c => is_surrogate c = true) ris_text /\
        convert_button ascii_db example3 =
          Page [st_success (lit "RIS output generated.");
                st_text_area (lit "RIS output") ris_text 300]
               (Some UnicodeEncodeError))))).
Proof.
  split; [exact ascii_linebreak_isspace|].
  exact (convert_button_outcome ascii_db example3 ascii_linebreak_isspace).
Defined.

(** An ASCII result is its own encoding: the download of the third example
    holds the text shown. *)
Example example3_page (db : unicode_db) :
  exists ris_text,
    references_text_to_ris db example3 = Ok ris_text /\
    convert_button db example3 =
      Page [st_success (lit "RIS output generated.");
            st_text_area (lit "RIS output") ris_text 300;
            st_download_button (lit "Download RIS file") ris_text
              (lit "references.ris")
              (lit "application/x-research-info-systems")] None.
Proof. eexists. split; vm_compute; reflexivity. Qed.

(** A lone surrogate in a line goes into the record and makes [encode]
    raise after the success notice and the text area. *)
Example surrogate_page :
  raised (convert_button ascii_db ([55296%N] ++ lit " (2020). T")) =
    Some UnicodeEncodeError /\
  length (widgets (convert_button ascii_db ([55296%N] ++ lit " (2020). T"))) = 2.
Proof. split; vm_compute; reflexivity. Qed.

(** Code points of two, three and four bytes. *)
Example encode_utf8_bytes :
  encode_utf8 [233%N; 8211%N; 128512%N] =
  Some [195%N; 169%N; 226%N; 128%N; 147%N; 240%N; 159%N; 152%N; 128%N].
Proof. reflexivity. Qed.
